(** * The Ollama installer (main.go): archive extraction, platform
      resolution, pipeline orchestration and the shell PATH updater.

    The development follows the last (most complete) program variant in
    [main.go].

    - Go strings are byte sequences and are modelled as [list ascii]; the
      functions of [strings], [path/filepath] and [bufio] that the program
      calls are modelled with the behaviour they have on Unix-like hosts
      (separator [/], no volume names).
    - A function that returns an [error] returns a sum; the calls it makes
      on the file system and the lines it prints that matter here are
      collected, in order, as events.
    - What the program cannot decide (whether a call of the operating
      system succeeds, what the network answers, what an archive holds)
      is an argument of the model: the entries of an archive come paired
      with the answers to the calls made for them, and a [host] record
      holds the answers the orchestrator gets. *)

From Stdlib Require Import String Ascii List Bool Arith ZArith Lia.
Import ListNotations.

Set Implicit Arguments.

(** ** Go strings *)

Module GoString.

Definition t := list ascii.

Definition lit (s : string) : t := list_ascii_of_string s.

Fixpoint eqs (a b : t) : bool :=
  match a, b with
  | [], [] => true
  | x :: a', y :: b' => Ascii.eqb x y && eqs a' b'
  | _, _ => false
  end.

(** [strings.HasPrefix]: [s] begins with [prefix]. *)
Fixpoint HasPrefix (s prefix : t) : bool :=
  match prefix, s with
  | [], _ => true
  | p :: prefix', c :: s' => Ascii.eqb c p && HasPrefix s' prefix'
  | _ :: _, [] => false
  end.

(** [strings.HasSuffix]: [s] ends with [suffix]. *)
Definition HasSuffix (s suffix : t) : bool :=
  HasPrefix (rev s) (rev suffix).

(** [strings.Contains]: some position of [s] starts an occurrence of [substr]. *)
Fixpoint Contains (s substr : t) : bool :=
  HasPrefix s substr ||
  match s with
  | [] => false
  | _ :: s' => Contains s' substr
  end.

(** Number of positions of [s] at which [substr] occurs. *)
Fixpoint occurrences (s substr : t) : nat :=
  (if HasPrefix s substr then 1 else 0) +
  match s with
  | [] => 0
  | _ :: s' => occurrences s' substr
  end.

End GoString.

(** ** [path/filepath] on a Unix-like host *)

Module Filepath.
Import GoString.

Definition Separator : ascii := "/"%char.

(** [strings.Split(s, "/")]: the pieces between separators (never empty). *)
Fixpoint split (s : t) : list t :=
  match s with
  | [] => [[]]
  | c :: s' =>
      if Ascii.eqb c Separator then [] :: split s'
      else match split s' with
           | w :: ws => (c :: w) :: ws
           | [] => [[c]]
           end
  end.

(** [strings.Join(elems, "/")]. *)
Fixpoint join (elems : list t) : t :=
  match elems with
  | [] => []
  | [w] => w
  | w :: ws => w ++ Separator :: join ws
  end.

Definition dot : t := lit ".".
Definition dotdot : t := lit "..".

(** One round of the loop of [filepath.Clean], on the path element [c];
    [out] holds the elements written so far, last one first.  An empty
    element and [.] are dropped; [..] removes the last element when there
    is one to backtrack over, is appended when the path is not rooted and
    is dropped at the root; any other element is appended. *)
Definition clean_step (rooted : bool) (out : list t) (c : t) : list t :=
  if eqs c [] || eqs c dot then out
  else if eqs c dotdot then
    match out with
    | top :: below =>
        if eqs top dotdot then (if rooted then out else c :: out) else below
    | [] => if rooted then [] else [c]
    end
  else c :: out.

Definition isRooted (path : t) : bool :=
  match path with
  | c :: _ => Ascii.eqb c Separator
  | [] => false
  end.

(** The elements [filepath.Clean] keeps, in order. *)
Definition elements (path : t) : list t :=
  rev (fold_left (clean_step (isRooted path)) (split path) []).

(** How [filepath.Clean] writes its result out. *)
Definition render (rooted : bool) (elems : list t) : t :=
  if rooted then Separator :: join elems
  else match elems with
       | [] => dot
       | _ => join elems
       end.

(** [filepath.Clean]. *)
Definition Clean (path : t) : t :=
  match path with
  | [] => dot
  | _ => render (isRooted path) (elements path)
  end.

(** [filepath.Join]: leading empty elements are ignored, the rest is
    joined with the separator and cleaned; all empty gives the empty string. *)
Fixpoint Join (elem : list t) : t :=
  match elem with
  | [] => []
  | [] :: rest => Join rest
  | _ :: _ => Clean (join elem)
  end.

Definition isSep (c : ascii) : bool := Ascii.eqb c Separator.

Fixpoint dropWhile (f : ascii -> bool) (s : t) : t :=
  match s with
  | [] => []
  | c :: s' => if f c then dropWhile f s' else s
  end.

Fixpoint takeWhile (f : ascii -> bool) (s : t) : t :=
  match s with
  | [] => []
  | c :: s' => if f c then c :: takeWhile f s' else []
  end.

(** [filepath.Base]: strip trailing separators, keep what follows the last
    separator; [.] for the empty path and [/] for a path of separators only. *)
Definition Base (path : t) : t :=
  match path with
  | [] => dot
  | _ =>
      let stripped := dropWhile isSep (rev path) in
      match rev (takeWhile (fun c => negb (isSep c)) stripped) with
      | [] => [Separator]
      | b => b
      end
  end.

(** [filepath.Dir]: everything up to and including the last separator, cleaned. *)
Definition Dir (path : t) : t :=
  Clean (rev (dropWhile (fun c => negb (isSep c)) (rev path))).

(** *** What a path denotes

    A path resolves, lexically, to a starting point (the root, or the
    working directory) and the elements left after [.] and [..] have been
    carried out.  [p] lies strictly inside directory [d] when both start at
    the same point and [p]'s elements are those of [d] followed by at least
    one more, none of which climbs back up. *)
Definition inside (d p : t) : Prop :=
  isRooted p = isRooted d /\
  exists rest, rest <> [] /\ ~ In dotdot rest /\ elements p = elements d ++ rest.

(** [p] is [d] itself or lies strictly inside it. *)
Definition within (d p : t) : Prop :=
  isRooted p = isRooted d /\
  exists rest, ~ In dotdot rest /\ elements p = elements d ++ rest.

(** A directory that has a name of its own: its last element is neither
    the root, nor the working directory, nor a [..]. *)
Definition named (d : t) : Prop :=
  exists front name, elements d = front ++ [name] /\ name <> dotdot.

(** An element as [Clean] keeps it: not empty, not [.], free of separators. *)
Definition proper (c : t) : Prop :=
  c <> [] /\ c <> dot /\ ~ In Separator c.

(** The shape of a cleaned path: some [..] elements, none when the path is
    rooted, and then names. *)
Definition wf (rooted : bool) (elems : list t) : Prop :=
  exists k names,
    elems = repeat dotdot k ++ names /\ ~ In dotdot names /\
    Forall proper elems /\ (rooted = true -> k = 0).

End Filepath.

(** ** Errors, events and the result of a run *)

Module Run.
Import GoString.

(** The errors the program builds with [fmt.Errorf]; [%w] wrapping is kept
    as the constructors that take an [error]. *)
Inductive error : Type :=
| ErrOpenZip                       (* failed to open zip file *)
| ErrZipCreateDir                  (* failed to create directory *)
| ErrZipOpenEntry                  (* failed to open file in zip *)
| ErrZipCreateTarget               (* failed to create target file *)
| ErrZipCopy                       (* failed to copy file *)
| ErrZipBinaryNotFound (binaryName : t)  (* binary %s not found in zip archive *)
| ErrTarOpen                       (* failed to open tar.gz file *)
| ErrGzipReader                    (* failed to create gzip reader *)
| ErrTarRead                       (* failed to read tar entry *)
| ErrTarCreateDir (path : t)       (* failed to create directory %s *)
| ErrTarCreateParent               (* failed to create parent directory *)
| ErrTarCreateFile (path : t)      (* failed to create file %s *)
| ErrTarWrite (path : t)           (* failed to write file %s *)
| ErrTarBinaryNotFound             (* ollama binary not found in tar.gz archive *)
| ErrRemoveTempDir                 (* failed to remove existing temp directory *)
| ErrCreateTempDir                 (* failed to create temp directory *)
| ErrExtraction (cause : error)    (* extraction failed: %w *)
| ErrCopyBinary (cause : error)    (* failed to copy binary: %w *)
| ErrOpenSource                    (* failed to open source file *)
| ErrCreateDestination             (* failed to create destination file *)
| ErrCopyFile                      (* failed to copy file *)
| ErrChmod                         (* failed to make binary executable *)
| ErrCreateRequest                 (* failed to create request *)
| ErrTransport                     (* failed to download file / fetch latest release *)
| ErrDownloadStatus (status : Z)   (* download failed with status: %d *)
| ErrCreateFile                    (* failed to create file *)
| ErrSaveFile                      (* failed to save file *)
| ErrApiStatus (status : Z)        (* GitHub API returned status %d *)
| ErrDecode                        (* failed to decode response *)
| ErrHomeDir                       (* failed to get home directory *)
| ErrDownload (cause : error)      (* failed to download Ollama: %w *)
| ErrCreateBinDir                  (* failed to create bin directory *)
| ErrExtractAndInstall (cause : error)  (* failed to extract and install: %w *)
| ErrWindowsPath                   (* failed to update Windows PATH *)
| ErrNoShellConfig.                (* failed to update any shell configuration file *)

(** What a run does to the file system and prints, in order.  Each event
    is a call the program makes; the call is recorded whether or not the
    operating system lets it succeed. *)
Inductive event : Type :=
| MkdirAll (path : t) (perm : N)
| OpenFile (path : t) (perm : N)        (* O_WRONLY|O_CREATE|O_TRUNC *)
| CopyTo (path : t) (data : t)          (* io.Copy into the open file *)
| Create (path : t)                     (* os.Create *)
| Chmod (path : t) (perm : N)
| Remove (path : t)
| RemoveAll (path : t)
| CopyFrom (src dst : t)                 (* io.Copy from one file into another *)
| Warning (cause : error)               (* Warning: Failed to update PATH: %v *)
| Installed (path : t).                 (* Ollama installed successfully to %s *)

(** A computation that may fail, together with the events it caused. *)
Definition M (A : Type) : Type := (error + A) * list event.

Definition ret {A} (a : A) : M A := (inr a, []).
Definition fail {A} (e : error) : M A := (inl e, []).
Definition emit (ev : event) : M unit := (inr tt, [ev]).

Definition bind {A B} (m : M A) (f : A -> M B) : M B :=
  match m with
  | (inl e, tr) => (inl e, tr)
  | (inr a, tr) => let (r, tr') := f a in (r, tr ++ tr')
  end.

(** [if err != nil { return fmt.Errorf(...) }] after a call whose outcome
    the operating system decides. *)
Definition check (ok : bool) (e : error) : M unit :=
  if ok then ret tt else fail e.

(** [fmt.Errorf("...: %w", err)] around a failing call. *)
Definition wrap {A} (w : error -> error) (m : M A) : M A :=
  match m with
  | (inl e, tr) => (inl (w e), tr)
  | ok => ok
  end.

(** [defer]: the deferred calls run when the function returns, whatever it returns. *)
Definition defer {A} (cleanup : list event) (body : M A) : M A :=
  let (r, tr) := body in (r, tr ++ cleanup).

Definition result {A} (m : M A) : error + A := fst m.
Definition events {A} (m : M A) : list event := snd m.

End Run.

Declare Scope run_scope.
Delimit Scope run_scope with run.
Notation "x <- m ;; k" := (Run.bind m (fun x => k))
  (at level 61, m at next level, right associativity) : run_scope.
Notation "m ;;; k" := (Run.bind m (fun _ => k))
  (at level 61, right associativity) : run_scope.

(** ** The archive extractor: [extractZip] and [extractTarGz] *)

Module Extractor.
Import GoString Filepath Run.
Local Open Scope run_scope.

(** What the operating system answers to the calls made for one entry. *)
Record os_answers : Type := {
  mkdir_ok : bool;     (* os.MkdirAll *)
  open_ok : bool;      (* file.Open, zip only *)
  create_ok : bool;    (* os.OpenFile *)
  copy_ok : bool       (* io.Copy *)
}.

Definition all_ok : os_answers :=
  {| mkdir_ok := true; open_ok := true; create_ok := true; copy_ok := true |}.

(** An entry of [reader.File]: the stored name, the directory bit of the
    external attributes, the permission bits and the content. *)
Record zip_file : Type := {
  zName : t;
  zDirAttr : bool;
  zPerm : N;
  zData : t
}.

(** [file.FileInfo().IsDir()]: the mode is a directory's when the
    attributes say so or the stored name ends with a slash. *)
Definition zIsDir (f : zip_file) : bool :=
  zDirAttr f || HasSuffix (zName f) [Separator].

(** A tar header: name, type flag, mode; and the entry's content. *)
Record tar_header : Type := {
  hName : t;
  hTypeflag : ascii;
  hMode : Z;
  hData : t
}.

Definition TypeReg : ascii := "0"%char.
Definition TypeDir : ascii := "5"%char.

(** [os.FileMode(header.Mode)]: int64 to uint32. *)
Definition FileMode (mode : Z) : N := Z.to_N (mode mod 2 ^ 32).

(** The traversal guard both routines apply to the destination path:
    [strings.HasPrefix(path, filepath.Clean(tempDir)+string(os.PathSeparator))]. *)
Definition guard (tempDir path : t) : bool :=
  HasPrefix path (Clean tempDir ++ [Separator]).

(** The body of the loop of [extractZip] for one entry; [binaryPath] is the
    variable of that name, and the result is its value after the round. *)
Definition zip_entry (tempDir binaryName binaryPath : t)
    (entry : zip_file * os_answers) : M t :=
  let (file, os) := entry in
  let path := Join [tempDir; zName file] in
  if negb (guard tempDir path) then ret binaryPath
  else if zIsDir file then
    emit (MkdirAll path (zPerm file)) ;;;
    ret binaryPath
  else
    emit (MkdirAll (Dir path) 493) ;;;
    check (mkdir_ok os) ErrZipCreateDir ;;;
    check (open_ok os) ErrZipOpenEntry ;;;
    emit (OpenFile path (zPerm file)) ;;;
    check (create_ok os) ErrZipCreateTarget ;;;
    emit (CopyTo path (zData file)) ;;;
    check (copy_ok os) ErrZipCopy ;;;
    ret (if eqs (Base path) binaryName then path else binaryPath).

Fixpoint zip_loop (tempDir binaryName binaryPath : t)
    (files : list (zip_file * os_answers)) : M t :=
  match files with
  | [] => ret binaryPath
  | entry :: rest =>
      binaryPath' <- zip_entry tempDir binaryName binaryPath entry ;;
      zip_loop tempDir binaryName binaryPath' rest
  end.

(** [extractZip]; [reader] is what [zip.OpenReader(archivePath)] gives:
    nothing when it fails, else the entries in archive order. *)
Definition extractZip (reader : option (list (zip_file * os_answers)))
    (tempDir binaryName : t) : M t :=
  match reader with
  | None => fail ErrOpenZip
  | Some files =>
      binaryPath <- zip_loop tempDir binaryName [] files ;;
      if eqs binaryPath [] then fail (ErrZipBinaryNotFound binaryName)
      else ret binaryPath
  end.

Definition bin_ollama : t := lit "/bin/ollama".
Definition ollama : t := lit "ollama".

(** The body of the loop of [extractTarGz] for one header. *)
Definition tar_entry (tempDir binaryPath : t)
    (entry : tar_header * os_answers) : M t :=
  let (header, os) := entry in
  let path := Join [tempDir; hName header] in
  if negb (guard tempDir path) then ret binaryPath
  else if Ascii.eqb (hTypeflag header) TypeDir then
    emit (MkdirAll path (FileMode (hMode header))) ;;;
    check (mkdir_ok os) (ErrTarCreateDir path) ;;;
    ret binaryPath
  else if Ascii.eqb (hTypeflag header) TypeReg then
    emit (MkdirAll (Dir path) 493) ;;;
    check (mkdir_ok os) ErrTarCreateParent ;;;
    emit (OpenFile path (FileMode (hMode header))) ;;;
    check (create_ok os) (ErrTarCreateFile path) ;;;
    emit (CopyTo path (hData header)) ;;;
    check (copy_ok os) (ErrTarWrite path) ;;;
    ret (if HasSuffix path bin_ollama || eqs (Base path) ollama
         then path else binaryPath)
  else ret binaryPath.

Fixpoint tar_loop (tempDir binaryPath : t)
    (headers : list (tar_header * os_answers)) : M t :=
  match headers with
  | [] => ret binaryPath
  | entry :: rest =>
      binaryPath' <- tar_entry tempDir binaryPath entry ;;
      tar_loop tempDir binaryPath' rest
  end.

(** What opening and reading the [.tgz] file gives: [os.Open] fails, or
    [gzip.NewReader] fails, or [tarReader.Next] yields the headers in
    stream order and then [io.EOF] ([at_eof]) or a read error. *)
Inductive tar_source : Type :=
| TarOpenFails
| TarGzipFails
| TarStream (headers : list (tar_header * os_answers)) (at_eof : bool).

(** [extractTarGz]. *)
Definition extractTarGz (source : tar_source) (tempDir : t) : M t :=
  match source with
  | TarOpenFails => fail ErrTarOpen
  | TarGzipFails => fail ErrGzipReader
  | TarStream headers at_eof =>
      binaryPath <- tar_loop tempDir [] headers ;;
      check at_eof ErrTarRead ;;;
      if eqs binaryPath [] then fail ErrTarBinaryNotFound
      else ret binaryPath
  end.

End Extractor.

(** ** The platform resolver: [getPlatformConfig] and [getDownloadURL] *)

Module Platform.
Import GoString Filepath.

Record PlatformConfig : Type := {
  downloadURLTemplate : t;
  tempFileName : t;
  installPath : t;
  binaryName : t
}.

(** [getPlatformConfig]; [goos] is the value of [runtime.GOOS]. *)
Definition getPlatformConfig (goos : t) : PlatformConfig :=
  if eqs goos (lit "windows") then
    {| downloadURLTemplate :=
         lit "https://github.com/ollama/ollama/releases/download/%s/ollama-windows-amd64.zip";
       tempFileName := lit "ollama.zip";
       installPath := lit "~/AppData/Local/Programs/Ollama/ollama.exe";
       binaryName := lit "ollama.exe" |}
  else if eqs goos (lit "linux") then
    {| downloadURLTemplate :=
         lit "https://github.com/ollama/ollama/releases/download/%s/ollama-linux-amd64.tgz";
       tempFileName := lit "ollama.tgz";
       installPath := lit "~/bin/ollama";
       binaryName := lit "ollama" |}
  else if eqs goos (lit "darwin") then
    {| downloadURLTemplate :=
         lit "https://github.com/ollama/ollama/releases/download/%s/ollama-darwin.zip";
       tempFileName := lit "ollama.zip";
       installPath := lit "~/bin/ollama";
       binaryName := lit "ollama" |}
  else
    {| downloadURLTemplate :=
         lit "https://github.com/ollama/ollama/releases/download/%s/ollama-linux-amd64.tgz";
       tempFileName := lit "ollama.tgz";
       installPath := lit "~/bin/ollama";
       binaryName := lit "ollama" |}.

(** The archive formats the extractor knows; [extractAndInstall] takes
    the zip routine when the temporary file name ends in [.zip] and the
    tar.gz routine otherwise. *)
Inductive archive_format : Type := Zip | TarGz.

Definition formatOf (config : PlatformConfig) : archive_format :=
  if HasSuffix (tempFileName config) (lit ".zip") then Zip else TarGz.

(** [fmt.Sprintf(format, arg)] for a format whose only verbs are [%s]:
    the first takes the argument, a later one finds none left. *)
Fixpoint Sprintf (format : t) (args : list t) : t :=
  match format with
  | "%"%char :: "s"%char :: rest =>
      match args with
      | a :: args' => a ++ Sprintf rest args'
      | [] => lit "%!s(MISSING)" ++ Sprintf rest []
      end
  | c :: rest => c :: Sprintf rest args
  | [] => []
  end.

Definition getDownloadURL (goos version : t) : t :=
  Sprintf (downloadURLTemplate (getPlatformConfig goos)) [version].

End Platform.

(** ** The PATH updater *)

Module PathUpdater.
Import GoString Filepath Run.

(** What [os.OpenFile(APPEND|CREATE|WRONLY)] followed by [WriteString]
    comes to for a file: the open fails, or the write fails after some
    bytes, or both succeed. *)
Inductive append_answer : Type :=
| AppendOpenFails
| AppendWriteFails (written : nat)
| AppendOk.

(** The shell configuration files as the updater sees them: the content
    of each file that exists, and what the operating system allows. *)
Record shell_fs : Type := {
  content : t -> option t;
  read_ok : t -> bool;            (* os.Open succeeds on the existing file *)
  stat_fails : t -> bool;         (* os.Stat fails, and not with "does not exist" *)
  append_answers : t -> append_answer
}.

Definition newline : ascii := ascii_of_nat 10.
Definition carriage_return : ascii := ascii_of_nat 13.

(** [bufio.MaxScanTokenSize]: the buffer limit of a [bufio.Scanner]. *)
Definition MaxScanTokenSize : nat := 64 * 1024.

(** The pieces of [s] between line feeds; what follows the last line feed
    is a line only when it is not empty. *)
Fixpoint raw_lines (s : t) : list t :=
  match s with
  | [] => []
  | c :: s' =>
      if Ascii.eqb c newline then [] :: raw_lines s'
      else match raw_lines s' with
           | l :: ls => (c :: l) :: ls
           | [] => [[c]]
           end
  end.

(** [bufio.ScanLines] drops one trailing carriage return. *)
Definition dropCR (line : t) : t :=
  match rev line with
  | c :: front => if Ascii.eqb c carriage_return then rev front else line
  | [] => line
  end.

(** The lines [scanner.Scan()]/[scanner.Text()] deliver: scanning stops
    for good at a line that does not fit the scanner's buffer. *)
Fixpoint scan (lines : list t) : list t :=
  match lines with
  | [] => []
  | l :: rest =>
      if MaxScanTokenSize <=? length l then []
      else dropCR l :: scan rest
  end.

(** [pathAlreadyExists]. *)
Definition pathAlreadyExists (fs : shell_fs) (filePath pathExport : t) : bool :=
  match content fs filePath with
  | None => false
  | Some text =>
      if read_ok fs filePath
      then existsb (fun line => Contains line pathExport) (scan (raw_lines text))
      else false
  end.

(** [fileExists]: [!os.IsNotExist(err)] of [os.Stat]. *)
Definition fileExists (fs : shell_fs) (filename : t) : bool :=
  match content fs filename with
  | Some _ => true
  | None => stat_fails fs filename
  end.

Definition write (fs : shell_fs) (filePath text : t) : shell_fs :=
  {| content := fun p => if eqs p filePath then Some text else content fs p;
     read_ok := read_ok fs;
     stat_fails := stat_fails fs;
     append_answers := append_answers fs |}.

Definition existing (fs : shell_fs) (filePath : t) : t :=
  match content fs filePath with
  | Some text => text
  | None => []
  end.

(** [appendToFile]: [true] stands for a [nil] error. *)
Definition appendToFile (fs : shell_fs) (filePath text : t) : bool * shell_fs :=
  let addition := newline :: text ++ [newline] in
  match append_answers fs filePath with
  | AppendOpenFails => (false, fs)
  | AppendWriteFails n =>
      (false, write fs filePath (existing fs filePath ++ firstn n addition))
  | AppendOk => (true, write fs filePath (existing fs filePath ++ addition))
  end.

Definition quote : ascii := ascii_of_nat 34.

(** The export line: [export PATH=] and, in double quotes, [$HOME/bin:$PATH]. *)
Definition pathExport : t :=
  lit "export PATH=" ++ quote :: lit "$HOME/bin:$PATH" ++ [quote].

Definition configFiles : list t :=
  [lit ".zshrc"; lit ".bash_profile"; lit ".bashrc"; lit ".profile"].

(** The second loop of [updateUnixPath]: the first candidate that takes
    the append ends it; [.zshrc] is passed over when it does not exist. *)
Fixpoint appendFirst (fs : shell_fs) (homeDir : t) (candidates : list t)
    : (error + unit) * shell_fs :=
  match candidates with
  | [] => (inl ErrNoShellConfig, fs)
  | configFile :: rest =>
      let configPath := Join [homeDir; configFile] in
      if eqs configFile (lit ".zshrc") && negb (fileExists fs configPath)
      then appendFirst fs homeDir rest
      else
        match appendToFile fs configPath pathExport with
        | (true, fs') => (inr tt, fs')
        | (false, fs') => appendFirst fs' homeDir rest
        end
  end.

(** [updateUnixPath]. *)
Definition updateUnixPath (fs : shell_fs) (homeDir : t)
    : (error + unit) * shell_fs :=
  if existsb (fun configFile =>
                pathAlreadyExists fs (Join [homeDir; configFile]) pathExport)
             configFiles
  then (inr tt, fs)
  else appendFirst fs homeDir configFiles.

(** [updateWindowsPath]; [PATH] is [os.Getenv("PATH")] and
    [powershell_ok] tells whether the PowerShell command succeeds. *)
Definition updateWindowsPath (PATH : t) (powershell_ok : bool) (homeDir : t)
    : error + unit :=
  let binDir := Join [homeDir; lit "bin"] in
  if Contains PATH binDir then inr tt
  else if powershell_ok then inr tt
  else inl ErrWindowsPath.

(** [updatePath]. *)
Definition updatePath (goos PATH : t) (powershell_ok : bool)
    (fs : shell_fs) (homeDir : t) : (error + unit) * shell_fs :=
  if eqs goos (lit "windows")
  then (updateWindowsPath PATH powershell_ok homeDir, fs)
  else updateUnixPath fs homeDir.

End PathUpdater.

(** ** The orchestrator: [downloadFile], [extractAndInstall],
       [installOllama] and [main] *)

Module Installer.
Import GoString Filepath Run Extractor Platform PathUpdater.
Local Open Scope run_scope.

Definition executableMode : N := 493.      (* 0755 *)
Definition tempDirName : t := lit "ollama-extract".
Definition StatusOK : Z := 200.

(** What an HTTP request comes to: the request cannot be built, the
    transport fails, or a response arrives with a status and a body. *)
Inductive http_answer : Type :=
| RequestFails
| TransportFails
| Responds (status : Z) (body : t).

(** The host the installer runs on: everything the program asks of the
    operating system and the network, with the answers it gets. *)
Record host : Type := {
  GOOS : t;
  UserHomeDir : option t;
  api : http_answer;                 (* GET of the release metadata *)
  decode : t -> option t;            (* JSON decoding of the tag name *)
  download : http_answer;            (* GET of the archive *)
  download_create_ok : bool;         (* os.Create of the temporary file *)
  download_copy_ok : bool;           (* io.Copy of the body *)
  bindir_ok : bool;                  (* os.MkdirAll of the install directory *)
  removeall_ok : bool;               (* os.RemoveAll of the scratch directory *)
  tempdir_ok : bool;                 (* os.MkdirAll of the scratch directory *)
  zipReader : option (list (zip_file * os_answers));
  tarSource : tar_source;
  copy_open_ok : bool;               (* copyFile: os.Open *)
  copy_create_ok : bool;             (* copyFile: os.Create *)
  copy_copy_ok : bool;               (* copyFile: io.Copy *)
  chmod_ok : bool;
  shell : shell_fs;
  PATH : t;
  powershell_ok : bool
}.

(** [getLatestOllamaVersion]. *)
Definition getLatestOllamaVersion (h : host) : error + t :=
  match api h with
  | RequestFails => inl ErrCreateRequest
  | TransportFails => inl ErrTransport
  | Responds status body =>
      if negb (Z.eqb status StatusOK) then inl (ErrApiStatus status)
      else match decode h body with
           | None => inl ErrDecode
           | Some tag => inr tag
           end
  end.

(** [downloadFile]. *)
Definition downloadFile (h : host) (url filePath : t) : M unit :=
  match download h with
  | RequestFails => fail ErrCreateRequest
  | TransportFails => fail ErrTransport
  | Responds status body =>
      if negb (Z.eqb status StatusOK) then fail (ErrDownloadStatus status)
      else
        emit (Create filePath) ;;;
        check (download_create_ok h) ErrCreateFile ;;;
        emit (CopyTo filePath body) ;;;
        check (download_copy_ok h) ErrSaveFile
  end.

(** [copyFile]. *)
Definition copyFile (h : host) (src dst : t) : M unit :=
  check (copy_open_ok h) ErrOpenSource ;;;
  emit (Create dst) ;;;
  check (copy_create_ok h) ErrCreateDestination ;;;
  emit (CopyFrom src dst) ;;;
  check (copy_copy_ok h) ErrCopyFile.

(** [extractAndInstall]. *)
Definition extractAndInstall (h : host) (archivePath tempDir finalPath : t)
    (config : PlatformConfig) : M unit :=
  emit (RemoveAll tempDir) ;;;
  check (removeall_ok h) ErrRemoveTempDir ;;;
  emit (MkdirAll tempDir executableMode) ;;;
  check (tempdir_ok h) ErrCreateTempDir ;;;
  sourcePath <-
    wrap ErrExtraction
      (if HasSuffix (tempFileName config) (lit ".zip")
       then extractZip (zipReader h) tempDir (binaryName config)
       else extractTarGz (tarSource h) tempDir) ;;
  wrap ErrCopyBinary (copyFile h sourcePath finalPath) ;;;
  emit (Chmod finalPath executableMode) ;;;
  check (chmod_ok h) ErrChmod.

(** The PATH stage of [installOllama]: skipped on Windows; elsewhere a
    failure of [updatePath] only prints a warning. *)
Definition pathStage (h : host) (homeDir : t) : list event * shell_fs :=
  if negb (eqs (GOOS h) (lit "windows")) then
    match updatePath (GOOS h) (PATH h) (powershell_ok h) (shell h) homeDir with
    | (inl err, fs) => ([Warning err], fs)
    | (inr _, fs) => ([], fs)
    end
  else ([], shell h).

(** [installOllama]; a [nil] error comes with the shell configuration
    files as the PATH stage leaves them. *)
Definition installOllama (h : host) (url : t) : M shell_fs :=
  let config := getPlatformConfig (GOOS h) in
  match UserHomeDir h with
  | None => fail ErrHomeDir
  | Some homeDir =>
      let tempFile := Join [homeDir; tempFileName config] in
      defer [Remove tempFile]
        (wrap ErrDownload (downloadFile h url tempFile) ;;;
         let tempDir := Join [homeDir; tempDirName] in
         let binDir :=
           if eqs (GOOS h) (lit "windows")
           then Join [homeDir; lit "AppData"; lit "Local"; lit "Programs"; lit "Ollama"]
           else Join [homeDir; lit "bin"] in
         let finalPath := Join [binDir; binaryName config] in
         defer [RemoveAll tempDir]
           (emit (MkdirAll binDir executableMode) ;;;
            check (bindir_ok h) ErrCreateBinDir ;;;
            wrap ErrExtractAndInstall
              (extractAndInstall h tempFile tempDir finalPath config) ;;;
            let (warnings, fs) := pathStage h homeDir in
            (inr fs, warnings ++ [Installed finalPath])))
  end.

(** [main]: the exit status of the process, with the events of the run. *)
Definition main (h : host) : Z * list event :=
  match getLatestOllamaVersion h with
  | inl _ => (1%Z, [])
  | inr version =>
      let url := getDownloadURL (GOOS h) version in
      match installOllama h url with
      | (inl _, tr) => (1%Z, tr)
      | (inr _, tr) => (0%Z, tr)
      end
  end.

End Installer.

(** ** What a run writes *)

Module Touch.
Import GoString Filepath Run.

(** The paths an event creates, writes, changes or removes; a copy from
    one file into another writes the second, and printing writes none. *)
Definition written (ev : event) : list t :=
  match ev with
  | MkdirAll p _ | OpenFile p _ | CopyTo p _ | Create p | Chmod p _
  | Remove p | RemoveAll p => [p]
  | CopyFrom _ dst => [dst]
  | Warning _ | Installed _ => []
  end.

(** Every path the event writes is directory [d] or lies inside it. *)
Definition confined (d : t) (ev : event) : Prop :=
  Forall (within d) (written ev).

End Touch.

(** ** The two earlier variants of the program

    The first two programs of [main.go] download with [curl], unpack with
    [tar] and move the binary with [mv]; each external command is an
    event, and whether it succeeds is the host's answer. *)

Module Legacy.
Import GoString Filepath Platform.

Inductive error : Type :=
| ErrDownload          (* failed to download *)
| ErrCreateBinDir      (* failed to create bin directory *)
| ErrExtract           (* failed to extract *)
| ErrMove              (* failed to move binary *)
| ErrChmod.            (* failed to make executable *)

Inductive event : Type :=
| Exec (argv : list t)              (* exec.Command(argv...).Run() *)
| MkdirAll (path : t) (perm : N)
| Remove (path : t)
| RemoveAll (path : t).

Record host : Type := {
  UserHomeDir : option t;
  curl_ok : bool;
  mkdir_ok : bool;
  tar_ok : bool;
  mv_ok : bool;
  chmod_ok : bool
}.

(** [homeDir, _ := os.UserHomeDir()]: the error is dropped, and the
    directory is the empty string when there is one. *)
Definition homeDirOf (h : host) : t :=
  match UserHomeDir h with
  | Some homeDir => homeDir
  | None => []
  end.

Definition run : Type := (error + unit) * list event.

(** A call whose error, if any, is returned at once. *)
Definition step (ev : event) (ok : bool) (err : error) (rest : run) : run :=
  if ok then (fst rest, ev :: snd rest) else (inl err, [ev]).

(** A call whose error is not looked at. *)
Definition quiet (ev : event) (rest : run) : run := (fst rest, ev :: snd rest).

Definition done : run := (inr tt, []).

(** [getDownloadURL] of both earlier variants. *)
Definition getDownloadURL (version : t) : t :=
  Sprintf (lit "https://github.com/ollama/ollama/releases/download/%s/ollama-linux-amd64.tgz")
    [version].

(** [installOllama] of the first variant. *)
Definition installOllama1 (h : host) (url : t) : run :=
  let homeDir := homeDirOf h in
  let tempFile := Join [homeDir; lit "ollama.tgz"] in
  step (Exec [lit "curl"; lit "-L"; lit "-#"; url; lit "-o"; tempFile])
       (curl_ok h) ErrDownload
    (let binDir := Join [homeDir; lit "bin"] in
     step (MkdirAll binDir 493) (mkdir_ok h) ErrCreateBinDir
       (let tempDir := Join [homeDir; lit "ollama-extract"] in
        quiet (RemoveAll tempDir)
          (quiet (MkdirAll tempDir 493)
             (step (Exec [lit "tar"; lit "-xzf"; tempFile; lit "-C"; tempDir])
                   (tar_ok h) ErrExtract
                (let finalPath := Join [binDir; lit "ollama"] in
                 step (Exec [lit "mv"; Join [tempDir; lit "bin"; lit "ollama"]; finalPath])
                      (mv_ok h) ErrMove
                   (step (Exec [lit "chmod"; lit "+x"; finalPath]) (chmod_ok h) ErrChmod
                      (quiet (Remove tempFile)
                         (quiet (RemoveAll tempDir) done)))))))).

(** [installOllama] of the second variant. *)
Definition installOllama2 (h : host) (url : t) : run :=
  let tempFile := lit "/tmp/ollama.tgz" in
  step (Exec [lit "curl"; lit "-L"; url; lit "-o"; tempFile]) (curl_ok h) ErrDownload
    (let homeDir := homeDirOf h in
     let binDir := Join [homeDir; lit "bin"] in
     step (MkdirAll binDir 493) (mkdir_ok h) ErrCreateBinDir
       (step (Exec [lit "tar"; lit "-xzf"; tempFile; lit "-C"; lit "/tmp"])
             (tar_ok h) ErrExtract
          (let finalPath := Join [binDir; lit "ollama"] in
           step (Exec [lit "mv"; lit "/tmp/ollama"; finalPath]) (mv_ok h) ErrMove
             (step (Exec [lit "chmod"; lit "+x"; finalPath]) (chmod_ok h) ErrChmod
                (quiet (Remove tempFile) done))))).

End Legacy.

(** ** Vocabulary of the statements *)

Module Spec.
Import GoString Filepath Run Extractor Platform PathUpdater Installer.

(** The destination path the extractor computes for a stored name. *)
Definition destination (tempDir name : t) : t := Join [tempDir; name].

(** An extraction event stays in directory [d]: it targets [d] itself or
    a path strictly inside it.  Extraction causes no other kind of event. *)
Definition stays_within (d : t) (ev : event) : Prop :=
  match ev with
  | MkdirAll p _ | OpenFile p _ | CopyTo p _ => within d p
  | _ => False
  end.

(** The operating system lets every call made for these entries succeed. *)
Definition answers_ok (os : os_answers) : Prop :=
  mkdir_ok os = true /\ open_ok os = true /\ create_ok os = true /\ copy_ok os = true.

Definition calls_succeed {E : Type} (entries : list (E * os_answers)) : Prop :=
  Forall (fun entry => answers_ok (snd entry)) entries.

(** The zip entry is one [extractZip] records when it reaches it: it
    passes the guard, is not a directory and has the binary's base name. *)
Definition zipRecorded (tempDir binaryName : t) (file : zip_file) : bool :=
  guard tempDir (destination tempDir (zName file)) &&
  negb (zIsDir file) &&
  eqs (Base (destination tempDir (zName file))) binaryName.

(** The tar header is one [extractTarGz] records when it reaches it. *)
Definition tarRecorded (tempDir : t) (header : tar_header) : bool :=
  guard tempDir (destination tempDir (hName header)) &&
  Ascii.eqb (hTypeflag header) TypeReg &&
  (HasSuffix (destination tempDir (hName header)) bin_ollama ||
   eqs (Base (destination tempDir (hName header))) ollama).

(** In words: the entry is a file (zip: not a directory, tar: a regular
    file) whose destination lies strictly inside the target directory and
    satisfies the format's matching rule. *)
Definition zip_candidate (tempDir binaryName : t) (file : zip_file) : Prop :=
  inside tempDir (destination tempDir (zName file)) /\
  zIsDir file = false /\
  Base (destination tempDir (zName file)) = binaryName.

Definition tar_candidate (tempDir : t) (header : tar_header) : Prop :=
  inside tempDir (destination tempDir (hName header)) /\
  hTypeflag header = TypeReg /\
  (Base (destination tempDir (hName header)) = ollama \/
   HasSuffix (destination tempDir (hName header)) bin_ollama = true).

(** The matching rules in the words of the specification: the base name
    equals the expected binary name; the path ends in [bin/<binaryName>]. *)
Definition base_name_rule (binaryName path : t) : Prop :=
  Base path = binaryName.

Definition bin_suffix_rule (binaryName path : t) : Prop :=
  exists front, path = front ++ lit "bin/" ++ binaryName.

(** What the loop keeps in [binaryPath] after an entry it got through. *)
Definition keep {E : Type} (recorded : E -> bool) (dest : E -> t)
    (binaryPath : t) (entry : E) : t :=
  if recorded entry then dest entry else binaryPath.

(** The scratch directory [installOllama] extracts into. *)
Definition scratch (homeDir : t) : t := Join [homeDir; tempDirName].

(** The paths [installOllama] works with on host [h]. *)
Definition tempFileOf (h : host) (homeDir : t) : t :=
  Join [homeDir; tempFileName (getPlatformConfig (GOOS h))].

Definition binDirOf (h : host) (homeDir : t) : t :=
  if eqs (GOOS h) (lit "windows")
  then Join [homeDir; lit "AppData"; lit "Local"; lit "Programs"; lit "Ollama"]
  else Join [homeDir; lit "bin"].

Definition finalPathOf (h : host) (homeDir : t) : t :=
  Join [binDirOf h homeDir; binaryName (getPlatformConfig (GOOS h))].

(** The archive format and install-path convention of a platform. *)
Definition convention (goos : t) : archive_format * t :=
  let config := getPlatformConfig goos in (formatOf config, installPath config).

(** What [appendToFile] adds to a file for the export line. *)
Definition addition : t := newline :: pathExport ++ [newline].

(** No write to a shell configuration file breaks off half-way. *)
Definition writes_complete (fs : shell_fs) : Prop :=
  forall path written, append_answers fs path <> AppendWriteFails written.

(** The candidate [updateUnixPath] passes over when it does not exist. *)
Definition zshrc : t := lit ".zshrc".

(** The second loop of [updateUnixPath] does not write to this candidate:
    it is [.zshrc] and does not exist, or it cannot be opened for append. *)
Definition passed_over (fs : shell_fs) (homeDir configFile : t) : Prop :=
  (configFile = zshrc /\ fileExists fs (Join [homeDir; configFile]) = false) \/
  append_answers fs (Join [homeDir; configFile]) = AppendOpenFails.

(** Every line of the text fits the buffer of a [bufio.Scanner]. *)
Definition lines_fit (text : t) : Prop :=
  Forall (fun line => length line < MaxScanTokenSize) (raw_lines text).

(** The host [h] with another [PATH] environment variable and another
    outcome of the PowerShell command. *)
Definition with_environment (h : host) (PATH' : t) (powershell_ok' : bool) : host :=
  {| GOOS := GOOS h;
     UserHomeDir := UserHomeDir h;
     api := api h;
     decode := decode h;
     download := download h;
     download_create_ok := download_create_ok h;
     download_copy_ok := download_copy_ok h;
     bindir_ok := bindir_ok h;
     removeall_ok := removeall_ok h;
     tempdir_ok := tempdir_ok h;
     zipReader := zipReader h;
     tarSource := tarSource h;
     copy_open_ok := copy_open_ok h;
     copy_create_ok := copy_create_ok h;
     copy_copy_ok := copy_copy_ok h;
     chmod_ok := chmod_ok h;
     shell := shell h;
     PATH := PATH';
     powershell_ok := powershell_ok' |}.

End Spec.

(** ** Sample archives and hosts *)

Module Samples.
Import GoString Filepath Run Extractor Platform PathUpdater Installer.

Definition home : t := lit "/home/user".

Definition zip_regular (name data : string) : zip_file :=
  {| zName := lit name; zDirAttr := false; zPerm := 493; zData := lit data |}.

Definition zip_directory (name : string) : zip_file :=
  {| zName := lit name; zDirAttr := true; zPerm := 493; zData := [] |}.

Definition tar_regular (name data : string) : tar_header :=
  {| hName := lit name; hTypeflag := TypeReg; hMode := 493; hData := lit data |}.

Definition tar_directory (name : string) : tar_header :=
  {| hName := lit name; hTypeflag := TypeDir; hMode := 493; hData := [] |}.

Definition served {E : Type} (entries : list E) : list (E * os_answers) :=
  map (fun e => (e, all_ok)) entries.

(** Shell configuration files: the listed ones exist, all can be read,
    and appending works or is refused everywhere. *)
Fixpoint lookup (files : list (t * t)) (path : t) : option t :=
  match files with
  | [] => None
  | (p, text) :: rest => if eqs p path then Some text else lookup rest path
  end.

Definition shell_with (files : list (t * t)) (writable : bool) : shell_fs :=
  {| content := lookup files;
     read_ok := fun _ => true;
     stat_fails := fun _ => false;
     append_answers := fun _ => if writable then AppendOk else AppendOpenFails |}.

(** A [.bash_profile] whose first line is twice as long as the scanner's
    buffer and whose second line is the export line. *)
Definition long_line_profile : t :=
  repeat "a"%char (2 * MaxScanTokenSize) ++ newline :: pathExport ++ [newline].

(** The same file before any run: the long line alone. *)
Definition long_line_only : t :=
  repeat "a"%char (2 * MaxScanTokenSize) ++ [newline].

Definition bash_profile : t := lit "/home/user/.bash_profile".

Definition release_archive : tar_source :=
  TarStream (served [tar_directory "bin"; tar_regular "bin/ollama" "ELF";
                     tar_directory "lib"; tar_directory "lib/ollama"]) true.

(** A Linux host on which everything works, except what the arguments
    say: the answer to the download request and whether the shell
    configuration files can be written. *)
Definition linux_host (answer : http_answer) (writable : bool) : host :=
  {| GOOS := lit "linux";
     UserHomeDir := Some home;
     api := Responds 200 (lit "{}");
     decode := fun _ => Some (lit "v0.5.1");
     download := answer;
     download_create_ok := true;
     download_copy_ok := true;
     bindir_ok := true;
     removeall_ok := true;
     tempdir_ok := true;
     zipReader := None;
     tarSource := release_archive;
     copy_open_ok := true;
     copy_create_ok := true;
     copy_copy_ok := true;
     chmod_ok := true;
     shell := shell_with [] writable;
     PATH := lit "/usr/bin:/bin";
     powershell_ok := false |}.

End Samples.

(** * Properties *)

(** ** Go strings *)

Module GoStringFacts.
Import GoString.

Lemma eqs_refl a : eqs a a = true.
Proof.
  induction a as [|x a IH]; simpl; [reflexivity|].
  now rewrite Ascii.eqb_refl, IH.
Qed.

Lemma eqs_eq a b : eqs a b = true <-> a = b.
Proof.
  split.
  - revert b; induction a as [|x a IH]; intros [|y b]; simpl; try discriminate; auto.
    intros H; apply andb_prop in H as [Hxy Hab].
    apply Ascii.eqb_eq in Hxy; subst; f_equal; auto.
  - intros ->; apply eqs_refl.
Qed.

Lemma eqs_neq a b : eqs a b = false <-> a <> b.
Proof.
  split.
  - intros H E; apply eqs_eq in E; congruence.
  - intros H; destruct (eqs a b) eqn:E; [apply eqs_eq in E; contradiction|reflexivity].
Qed.

Lemma eqs_reflect a b : reflect (a = b) (eqs a b).
Proof.
  destruct (eqs a b) eqn:E; constructor.
  - now apply eqs_eq.
  - now apply eqs_neq.
Qed.

Lemma HasPrefix_app s prefix :
  HasPrefix s prefix = true <-> exists rest, s = prefix ++ rest.
Proof.
  revert s; induction prefix as [|p prefix IH]; intros s.
  - destruct s; simpl; split; eauto.
  - destruct s as [|c s]; simpl.
    + split; [discriminate|intros [rest H]; discriminate].
    + rewrite andb_true_iff, Ascii.eqb_eq, IH. split.
      * intros [-> [rest ->]]. now exists rest.
      * intros [rest H]. injection H as -> ->. eauto.
Qed.

Lemma HasSuffix_app s suffix :
  HasSuffix s suffix = true <-> exists front, s = front ++ suffix.
Proof.
  unfold HasSuffix. rewrite HasPrefix_app. split.
  - intros [rest H]. exists (rev rest).
    apply (f_equal (@rev ascii)) in H.
    now rewrite rev_involutive, rev_app_distr, rev_involutive in H.
  - intros [front ->]. exists (rev front). apply rev_app_distr.
Qed.

End GoStringFacts.

(** ** [path/filepath] *)

Module FilepathFacts.
Import GoString Filepath GoStringFacts.

Lemma split_not_nil s : split s <> [].
Proof.
  destruct s as [|c s]; simpl; [discriminate|].
  destruct (Ascii.eqb c Separator); [discriminate|].
  destruct (split s); discriminate.
Qed.

Lemma split_app a b : split (a ++ Separator :: b) = split a ++ split b.
Proof.
  induction a as [|c a IH]; simpl.
  - reflexivity.
  - destruct (Ascii.eqb c Separator) eqn:E.
    + now rewrite IH.
    + rewrite IH. destruct (split a) as [|w ws] eqn:S; [now apply split_not_nil in S|].
      reflexivity.
Qed.

Lemma split_free w : ~ In Separator w -> split w = [w].
Proof.
  induction w as [|c w IH]; simpl; intros H; [reflexivity|].
  destruct (Ascii.eqb c Separator) eqn:E.
  - apply Ascii.eqb_eq in E; subst; tauto.
  - rewrite IH by tauto. reflexivity.
Qed.

Lemma split_pieces_free s : Forall (fun w => ~ In Separator w) (split s).
Proof.
  induction s as [|c s IH]; simpl.
  - constructor; auto.
  - destruct (Ascii.eqb c Separator) eqn:E.
    + constructor; auto.
    + destruct (split s) as [|w ws]; [repeat constructor; simpl; intros [->|[]]; now rewrite Ascii.eqb_refl in E|].
      inversion IH; subst. constructor; auto.
      simpl; intros [->|H]; [now rewrite Ascii.eqb_refl in E|auto].
Qed.

Lemma split_join elems :
  elems <> [] -> Forall (fun w => ~ In Separator w) elems ->
  split (join elems) = elems.
Proof.
  induction elems as [|w ws IH]; [congruence|].
  intros _ H; inversion H; subst.
  destruct ws as [|w2 ws].
  - simpl; now apply split_free.
  - change (join (w :: w2 :: ws)) with (w ++ Separator :: join (w2 :: ws)).
    rewrite split_app, split_free, IH by (auto; discriminate). reflexivity.
Qed.

Lemma proper_free elems :
  Forall proper elems -> Forall (fun w => ~ In Separator w) elems.
Proof. apply Forall_impl; intros w (_ & _ & H); exact H. Qed.

Lemma step_skip r out c : c = [] \/ c = dot -> clean_step r out c = out.
Proof.
  unfold clean_step; intros [->| ->]; reflexivity.
Qed.

Lemma step_push r out c :
  proper c -> c <> dotdot -> clean_step r out c = c :: out.
Proof.
  intros (H1 & H2 & _) H3; unfold clean_step.
  apply eqs_neq in H1, H2, H3. now rewrite H1, H2, H3.
Qed.

Lemma step_dotdot_relative out :
  Forall (eq dotdot) out -> clean_step false out dotdot = dotdot :: out.
Proof.
  intros H; unfold clean_step; simpl.
  destruct out as [|top below]; [reflexivity|].
  inversion H; subst. reflexivity.
Qed.

Lemma fold_dotdots k j :
  fold_left (clean_step false) (repeat dotdot k) (repeat dotdot j)
  = repeat dotdot (k + j).
Proof.
  revert j; induction k as [|k IH]; intros j; [reflexivity|].
  cbn [repeat fold_left].
  rewrite step_dotdot_relative by (apply Forall_forall; intros x Hx; symmetry; eapply repeat_spec; eauto).
  change (dotdot :: repeat dotdot j) with (repeat dotdot (S j)).
  rewrite IH. f_equal; lia.
Qed.

Lemma fold_names r names out :
  Forall proper names -> ~ In dotdot names ->
  fold_left (clean_step r) names out = rev names ++ out.
Proof.
  revert out; induction names as [|c names IH]; intros out HF HN; [reflexivity|].
  inversion HF; subst. simpl in HN.
  cbn [fold_left]. rewrite step_push by (auto; intros E; apply HN; auto).
  rewrite IH by tauto. simpl. now rewrite <- app_assoc.
Qed.

Lemma rev_dotdots k : rev (repeat dotdot k) = repeat dotdot k.
Proof.
  induction k as [|k IH]; [reflexivity|].
  simpl. rewrite IH. change [dotdot] with (repeat dotdot 1).
  rewrite <- repeat_app, Nat.add_comm. reflexivity.
Qed.

(** Cleaning what is clean changes nothing. *)
Lemma fold_wf r elems :
  wf r elems -> fold_left (clean_step r) elems [] = rev elems.
Proof.
  intros (k & names & -> & HN & HF & Hk).
  apply Forall_app in HF as [_ HF].
  rewrite fold_left_app, rev_app_distr, rev_dotdots.
  destruct r.
  - rewrite Hk by reflexivity. simpl. rewrite fold_names by auto. reflexivity.
  - change (@nil t) with (repeat dotdot 0) at 1.
    rewrite fold_dotdots, fold_names by auto. f_equal. f_equal; lia.
Qed.

(** The stack of [Clean] keeps the shape [wf] describes, last element first. *)
Lemma step_wf r out c :
  ~ In Separator c -> wf r (rev out) -> wf r (rev (clean_step r out c)).
Proof.
  intros Hc (k & names & E & HN & HF & Hk).
  unfold clean_step.
  destruct (eqs_reflect c []) as [->|Hne]; simpl; [exists k, names; auto|].
  destruct (eqs_reflect c dot) as [->|Hnd]; simpl; [exists k, names; auto|].
  destruct (eqs_reflect c dotdot) as [->|Hndd].
  - destruct out as [|top below].
    + destruct r; [exists k, names; auto|].
      exists 1, []. repeat split; auto.
      * repeat constructor; try discriminate. intros [H|[H|[]]]; discriminate.
      * discriminate.
    + destruct (eqs_reflect top dotdot) as [->|Htop].
      * destruct r; [exists k, names; auto|].
        simpl in E, HF |- *.
        destruct names as [|n names _] using rev_ind.
        -- rewrite app_nil_r in E. exists (S k), [].
           rewrite app_nil_r, E. repeat split; auto.
           ++ change [dotdot] with (repeat dotdot 1). rewrite <- repeat_app.
              f_equal; lia.
           ++ apply Forall_app; split; [now rewrite E in HF|].
              repeat constructor; try discriminate. intros [H|[H|[]]]; discriminate.
           ++ discriminate.
        -- rewrite app_assoc in E. apply app_inj_tail in E as [_ E].
           exfalso; apply HN; rewrite in_app_iff; right; left; auto.
      * simpl in E, HF.
        destruct names as [|n names _] using rev_ind.
        -- rewrite app_nil_r in E. destruct k as [|k].
           ++ destruct (rev below); discriminate.
           ++ replace (S k) with (k + 1) in E by lia. rewrite repeat_app in E.
              apply app_inj_tail in E as [_ E]. congruence.
        -- rewrite app_assoc in E. apply app_inj_tail in E as [E _].
           exists k, names. repeat split; auto.
           ++ intros H; apply HN; rewrite in_app_iff; auto.
           ++ apply Forall_app in HF as [HF _]; auto.
  - simpl. exists k, (names ++ [c]). repeat split; auto.
    + rewrite E, app_assoc; reflexivity.
    + rewrite in_app_iff; intros [H|[H|[]]]; auto.
    + apply Forall_app; split; auto. repeat constructor; auto.
Qed.

Lemma wf_nil r : wf r [].
Proof. exists 0, []; repeat split; auto. Qed.

Lemma fold_step_wf r pieces out :
  Forall (fun w => ~ In Separator w) pieces -> wf r (rev out) ->
  wf r (rev (fold_left (clean_step r) pieces out)).
Proof.
  revert out; induction pieces as [|c pieces IH]; intros out HF H; [exact H|].
  inversion HF; subst. cbn [fold_left]. apply IH; auto. now apply step_wf.
Qed.

Lemma elements_wf path : wf (isRooted path) (elements path).
Proof.
  unfold elements. apply fold_step_wf; [apply split_pieces_free|apply wf_nil].
Qed.

Lemma Clean_render path : Clean path = render (isRooted path) (elements path).
Proof. destruct path; reflexivity. Qed.

Lemma join_head w ws : exists tail, join (w :: ws) = w ++ tail.
Proof.
  destruct ws as [|w2 ws]; simpl.
  - exists []; now rewrite app_nil_r.
  - eexists; reflexivity.
Qed.

Lemma wf_proper r elems : wf r elems -> Forall proper elems.
Proof. intros (k & names & _ & _ & H & _); exact H. Qed.

Lemma isRooted_join elems : Forall proper elems -> isRooted (join elems) = false.
Proof.
  intros HF; destruct elems as [|w ws]; [reflexivity|].
  inversion HF as [|? ? (Hne & _ & Hfree) _]; subst.
  destruct (join_head w ws) as [tail ->].
  destruct w as [|c w]; [congruence|]. simpl.
  apply Ascii.eqb_neq. intros ->. apply Hfree; left; reflexivity.
Qed.

Lemma isRooted_render r elems : wf r elems -> isRooted (render r elems) = r.
Proof.
  intros H; destruct r; simpl; [reflexivity|].
  destruct elems; [reflexivity|].
  apply isRooted_join. eapply wf_proper; eauto.
Qed.

Lemma split_render_rooted elems :
  Forall proper elems ->
  fold_left (clean_step true) (split (Separator :: join elems)) []
  = fold_left (clean_step true) elems [].
Proof.
  intros HF.
  change (split (Separator :: join elems)) with ([] :: split (join elems)).
  cbn [fold_left]. rewrite step_skip by auto.
  destruct elems as [|w ws]; [reflexivity|].
  rewrite split_join; [reflexivity|discriminate|now apply proper_free].
Qed.

(** [Clean] is idempotent: a cleaned path has the elements it shows. *)
Lemma elements_render r elems :
  wf r elems -> elements (render r elems) = elems.
Proof.
  intros H. unfold elements. rewrite isRooted_render by exact H.
  pose proof (wf_proper H) as HF.
  destruct r; cbn [render].
  - rewrite split_render_rooted, fold_wf, rev_involutive by auto. reflexivity.
  - destruct elems as [|w ws]; [reflexivity|].
    rewrite split_join, fold_wf, rev_involutive;
      [reflexivity|exact H|discriminate|now apply proper_free].
Qed.

Lemma elements_Clean path : elements (Clean path) = elements path.
Proof. rewrite Clean_render. apply elements_render, elements_wf. Qed.

Lemma isRooted_Clean path : isRooted (Clean path) = isRooted path.
Proof. rewrite Clean_render. apply isRooted_render, elements_wf. Qed.

Lemma Clean_idempotent path : Clean (Clean path) = Clean path.
Proof.
  rewrite (Clean_render (Clean path)), elements_Clean, isRooted_Clean.
  symmetry; apply Clean_render.
Qed.

Lemma join_not_nil elems : Forall proper elems -> elems <> [] -> join elems <> [].
Proof.
  intros HF Hne; destruct elems as [|w ws]; [congruence|].
  inversion HF as [|? ? (Hw & _) _]; subst.
  destruct (join_head w ws) as [tail ->]. destruct w; [congruence|discriminate].
Qed.

(** A string that continues [join base] past a separator is the join of
    [base] followed by more elements. *)
Lemma join_extends elems base s :
  Forall proper elems -> Forall proper base -> base <> [] ->
  join elems = join base ++ Separator :: s ->
  exists rest, rest <> [] /\ elems = base ++ rest.
Proof.
  intros HE HB Hne E.
  assert (elems <> []) as Hel.
  { intros ->. simpl in E. destruct (join base); discriminate. }
  exists (split s). split; [apply split_not_nil|].
  rewrite <- (split_join Hel (proper_free HE)), E, split_app.
  now rewrite (split_join Hne (proper_free HB)).
Qed.

(** The string comparison of the guard, read on elements. *)
Lemma render_extends r elems base s :
  wf r elems -> wf r base -> base <> [] ->
  render r elems = render r base ++ Separator :: s ->
  exists rest, rest <> [] /\ elems = base ++ rest.
Proof.
  intros HE HB Hne E.
  pose proof (wf_proper HE) as HFE. pose proof (wf_proper HB) as HFB.
  destruct r; simpl in E.
  - injection E as E. eapply join_extends; eauto.
  - destruct base as [|b bs]; [congruence|].
    destruct elems as [|e es].
    + exfalso. pose proof (join_not_nil HFB Hne) as Hj.
      destruct (join (b :: bs)) as [|c [|c' j]]; [congruence| |]; discriminate.
    + eapply join_extends; eauto.
Qed.

Lemma join_snoc elems w :
  elems <> [] -> join (elems ++ [w]) = join elems ++ Separator :: w.
Proof.
  induction elems as [|e es IH]; [congruence|]. intros _.
  destruct es as [|e2 es]; [reflexivity|].
  change (join ((e :: e2 :: es) ++ [w])) with (e ++ Separator :: join ((e2 :: es) ++ [w])).
  rewrite IH by discriminate.
  change (join (e :: e2 :: es)) with (e ++ Separator :: join (e2 :: es)).
  now rewrite <- app_assoc.
Qed.

Lemma render_snoc r elems w :
  elems <> [] -> render r (elems ++ [w]) = render r elems ++ Separator :: w.
Proof.
  intros H. destruct r; simpl.
  - now rewrite join_snoc.
  - destruct elems as [|e es]; [congruence|].
    change ((e :: es) ++ [w]) with (e :: es ++ [w]).
    cbv iota. change (e :: es ++ [w]) with ((e :: es) ++ [w]). now rewrite join_snoc.
Qed.

Lemma join_app a b :
  a <> [] -> b <> [] -> join (a ++ b) = join a ++ Separator :: join b.
Proof.
  intros Ha Hb. induction a as [|e es IH]; [congruence|].
  destruct es as [|e2 es].
  - destruct b; [congruence|reflexivity].
  - change (join ((e :: e2 :: es) ++ b)) with (e ++ Separator :: join ((e2 :: es) ++ b)).
    rewrite IH by discriminate.
    change (join (e :: e2 :: es)) with (e ++ Separator :: join (e2 :: es)).
    now rewrite <- app_assoc.
Qed.

Lemma render_app r a b :
  a <> [] -> b <> [] -> render r (a ++ b) = render r a ++ Separator :: join b.
Proof.
  intros Ha Hb. destruct r; cbn [render].
  - now rewrite join_app.
  - destruct a as [|e es]; [congruence|].
    change ((e :: es) ++ b) with (e :: es ++ b). cbv iota.
    change (e :: es ++ b) with ((e :: es) ++ b). now rewrite join_app.
Qed.

Lemma render_not_nil r elems : wf r elems -> render r elems <> [].
Proof.
  intros H. destruct r; simpl; [discriminate|].
  destruct elems as [|e es]; [discriminate|].
  apply join_not_nil; [eapply wf_proper; eauto|discriminate].
Qed.

Lemma isRooted_app a b : a <> [] -> isRooted (a ++ b) = isRooted a.
Proof. destruct a; [congruence|reflexivity]. Qed.

Lemma wf_after_name r elems a n b :
  wf r elems -> elems = a ++ n :: b -> n <> dotdot -> ~ In dotdot b.
Proof.
  intros (k & names & -> & HN & _ & _). revert a.
  induction k as [|k IH]; intros a E Hn; simpl in E.
  - subst names. intros H; apply HN. rewrite in_app_iff; right; right; exact H.
  - destruct a as [|a0 a]; simpl in E; injection E as E1 E2; [congruence|].
    eapply IH; eauto.
Qed.

Lemma wf_prefix r a b : wf r (a ++ b) -> wf r a.
Proof.
  intros (k & names & E & HN & HF & Hk). revert a E HF.
  induction k as [|k IH]; intros a E HF; simpl in E.
  - exists 0, a. apply Forall_app in HF as [HF _]. repeat split; auto.
    intros H; apply HN. rewrite <- E, in_app_iff; auto.
  - destruct a as [|a0 a]; [apply wf_nil|].
    simpl in E; injection E as E1 E2. subst a0.
    inversion HF as [|? ? Hd HF']; subst.
    assert (r = true -> k = 0) as Hk0 by (intros Hr; specialize (Hk Hr); discriminate).
    destruct (IH Hk0 a E2 HF') as (k' & names' & E' & HN' & HF'' & Hk').
    exists (S k'), names'.
    split; [simpl; now rewrite E'|]. split; [exact HN'|].
    split; [constructor; auto|].
    intros Hr; specialize (Hk Hr); discriminate.
Qed.

Lemma named_not_nil d : named d -> elements d <> [].
Proof. intros (front & name & E & _). rewrite E. now destruct front. Qed.

(** The guard is exact for a directory that has a name: a cleaned path
    passes it when, and only when, it lies strictly inside the directory. *)
Lemma guard_inside d x :
  named d -> Extractor.guard d (Clean x) = true -> inside d (Clean x).
Proof.
  intros Hd G. unfold Extractor.guard in G.
  apply HasPrefix_app in G as [s E]. rewrite <- app_assoc in E. simpl in E.
  pose proof (elements_wf x) as Wx. pose proof (elements_wf d) as Wd.
  assert (isRooted x = isRooted d) as R.
  { rewrite <- (isRooted_Clean x), E, isRooted_app, isRooted_Clean; auto.
    rewrite Clean_render. now apply render_not_nil. }
  rewrite !Clean_render, R in E. rewrite R in Wx.
  destruct (render_extends _ Wx Wd (named_not_nil Hd) E) as (rest & Hrest & Ex).
  split; [now rewrite isRooted_Clean|].
  exists rest. rewrite elements_Clean. repeat split; auto.
  destruct Hd as (front & name & Ed & Hname).
  rewrite Ed, <- app_assoc in Ex. simpl in Ex.
  exact (wf_after_name front rest Wx Ex Hname).
Qed.

Lemma inside_guard d x :
  named d -> inside d (Clean x) -> Extractor.guard d (Clean x) = true.
Proof.
  intros Hd (R & rest & Hrest & _ & E).
  unfold Extractor.guard. apply HasPrefix_app.
  rewrite isRooted_Clean in R. rewrite elements_Clean in E.
  exists (join rest). rewrite !Clean_render, R, E, <- app_assoc. simpl.
  apply render_app; auto. now apply named_not_nil.
Qed.

Lemma dropWhile_free w s :
  ~ In Separator w ->
  dropWhile (fun c => negb (isSep c)) (w ++ Separator :: s) = Separator :: s.
Proof.
  induction w as [|c w IH]; simpl; intros H.
  - reflexivity.
  - unfold isSep at 1. destruct (Ascii.eqb c Separator) eqn:E.
    + apply Ascii.eqb_eq in E. tauto.
    + simpl. apply IH. tauto.
Qed.

Lemma takeWhile_free w s :
  ~ In Separator w ->
  takeWhile (fun c => negb (isSep c)) (w ++ Separator :: s) = w.
Proof.
  induction w as [|c w IH]; simpl; intros H.
  - reflexivity.
  - unfold isSep at 1. destruct (Ascii.eqb c Separator) eqn:E.
    + apply Ascii.eqb_eq in E. tauto.
    + simpl. f_equal. apply IH. tauto.
Qed.

Lemma dropWhile_seps_free w s :
  w <> [] -> ~ In Separator w -> dropWhile isSep (w ++ s) = w ++ s.
Proof.
  destruct w as [|c w]; [congruence|]. intros _ H. simpl.
  unfold isSep. destruct (Ascii.eqb c Separator) eqn:E; [|reflexivity].
  apply Ascii.eqb_eq in E. simpl in H. tauto.
Qed.

(** The base name of a path that ends with a separator and a name is that name. *)
Lemma Base_last s w :
  w <> [] -> ~ In Separator w -> Base (s ++ Separator :: w) = w.
Proof.
  intros Hw Hfree. unfold Base.
  destruct (s ++ Separator :: w) eqn:E; [destruct s; discriminate|].
  rewrite <- E. clear E.
  assert (~ In Separator (rev w)) as Hr by (rewrite <- in_rev; exact Hfree).
  assert (rev w <> []) as Hn.
  { intros H. apply (f_equal (@rev ascii)) in H. rewrite rev_involutive in H. auto. }
  rewrite rev_app_distr. simpl. rewrite <- app_assoc. simpl.
  rewrite dropWhile_seps_free, takeWhile_free, rev_involutive by auto.
  destruct w; [congruence|reflexivity].
Qed.

Lemma elements_trailing_sep q :
  elements (q ++ [Separator]) = elements q /\
  (q <> [] -> isRooted (q ++ [Separator]) = isRooted q).
Proof.
  split; [|apply isRooted_app].
  unfold elements. rewrite split_app, fold_left_app.
  destruct q as [|c q]; [reflexivity|].
  rewrite isRooted_app by discriminate. simpl fold_left at 1.
  now rewrite step_skip by auto.
Qed.

(** The parent of a cleaned path of at least two elements. *)
Lemma Dir_render r elems last :
  wf r (elems ++ [last]) -> elems <> [] ->
  Dir (render r (elems ++ [last])) = render r elems.
Proof.
  intros W Hne.
  pose proof (wf_prefix _ _ W) as W'.
  assert (proper last) as (_ & _ & Hfree).
  { pose proof (wf_proper W) as HF. apply Forall_app in HF as [_ HF]. now inversion HF. }
  unfold Dir. rewrite render_snoc, rev_app_distr by auto.
  simpl. rewrite <- app_assoc. simpl.
  rewrite dropWhile_free by (rewrite <- in_rev; exact Hfree).
  simpl. rewrite rev_involutive.
  destruct (elements_trailing_sep (render r elems)) as [E R].
  rewrite Clean_render, E, R by (now apply render_not_nil).
  now rewrite elements_render, isRooted_render.
Qed.

(** The parent directory of a path strictly inside [d] is [d] or inside it. *)
Lemma Dir_within d x :
  named d -> inside d (Clean x) -> within d (Dir (Clean x)).
Proof.
  intros Hd (R & rest & Hrest & Hdd & E).
  rewrite isRooted_Clean in R. rewrite elements_Clean in E.
  pose proof (elements_wf x) as W. rewrite R, E in W.
  destruct rest as [|last rest' _] using rev_ind; [congruence|].
  rewrite app_assoc in W.
  rewrite Clean_render, R, E, app_assoc, Dir_render; auto.
  - pose proof (wf_prefix _ _ W) as W'.
    split; [now apply isRooted_render|].
    exists rest'. rewrite elements_render by auto. split; auto.
    intros H; apply Hdd. rewrite in_app_iff; auto.
  - pose proof (named_not_nil Hd). now destruct (elements d).
Qed.

Lemma inside_within d p : inside d p -> within d p.
Proof. intros (R & rest & _ & H & E); split; eauto. Qed.

(** Joining a name onto any directory gives a directory with that name. *)
Lemma named_Join d name :
  proper name -> name <> dotdot -> named (Join [d; name]).
Proof.
  intros Hp Hn. pose proof Hp as (Hne & _ & Hfree).
  destruct d as [|c d].
  - cbn [Join]. destruct name as [|n name]; [congruence|]. cbn [join].
    exists [], (n :: name). split; auto.
    rewrite elements_Clean. unfold elements.
    rewrite split_free by auto. cbn [fold_left]. now rewrite step_push.
  - cbn [Join join].
    exists (elements (c :: d)), name. split; auto.
    rewrite elements_Clean. unfold elements.
    rewrite split_app, fold_left_app, split_free by auto.
    rewrite isRooted_app by discriminate.
    cbn [fold_left]. now rewrite step_push.
Qed.

End FilepathFacts.

(** ** Runs *)

Module RunFacts.
Import GoString Run.
Local Open Scope run_scope.

Lemma bind_ret_l {A B} (a : A) (f : A -> M B) : bind (ret a) f = f a.
Proof. unfold bind, ret. now destruct (f a). Qed.

Lemma bind_assoc {A B C} (m : M A) (f : A -> M B) (g : B -> M C) :
  bind (bind m f) g = bind m (fun a => bind (f a) g).
Proof.
  destruct m as [[e|a] tr]; simpl; [reflexivity|].
  destruct (f a) as [[e|b] tr']; simpl; [reflexivity|].
  destruct (g b) as [r tr'']. now rewrite app_assoc.
Qed.

Lemma bind_ext {A B} (m : M A) (f g : A -> M B) :
  (forall a, f a = g a) -> bind m f = bind m g.
Proof. intros H. destruct m as [[e|a] tr]; simpl; [reflexivity|now rewrite H]. Qed.

Lemma events_bind {A B} (P : event -> Prop) (m : M A) (f : A -> M B) :
  Forall P (events m) -> (forall a, Forall P (events (f a))) ->
  Forall P (events (bind m f)).
Proof.
  destruct m as [[e|a] tr]; simpl; intros Hm Hf; [exact Hm|].
  specialize (Hf a). destruct (f a) as [r tr']; simpl in *.
  apply Forall_app; auto.
Qed.

Lemma events_check (P : event -> Prop) ok e : Forall P (events (check ok e)).
Proof. destruct ok; constructor. Qed.

Lemma events_ret {A} (P : event -> Prop) (a : A) : Forall P (events (ret a)).
Proof. constructor. Qed.

Lemma events_emit (P : event -> Prop) ev : P ev -> Forall P (events (emit ev)).
Proof. intros H; repeat constructor; exact H. Qed.

(** A run that ends well through [bind] ended well in both halves. *)
Lemma bind_inr {A B} (m : M A) (f : A -> M B) b tr :
  bind m f = (inr b, tr) ->
  exists a tr1 tr2, m = (inr a, tr1) /\ f a = (inr b, tr2) /\ tr = tr1 ++ tr2.
Proof.
  destruct m as [[e|a] tr1]; simpl; [discriminate|].
  destruct (f a) as [r tr2] eqn:E. intros H; injection H as -> <-.
  now exists a, tr1, tr2.
Qed.

End RunFacts.

(** ** The extractor *)

Module ExtractorFacts.
Import GoString Filepath Run Extractor Spec GoStringFacts FilepathFacts RunFacts.
Local Open Scope run_scope.

Ltac run_simpl := cbn [bind emit check ret fail app fst snd events result].

Ltac all_events W WD :=
  repeat (apply Forall_cons; [first [exact W | exact WD]|]); apply Forall_nil.

Ltac run_cases os :=
  destruct (mkdir_ok os), (create_ok os), (copy_ok os);
  try destruct (open_ok os);
  run_simpl.

(** An entry the guard rejects leaves no trace. *)
Lemma zip_entry_skip d bn bp file os :
  guard d (destination d (zName file)) = false ->
  zip_entry d bn bp (file, os) = ret bp.
Proof. unfold zip_entry, destination. now intros ->. Qed.

Lemma tar_entry_skip d bp header os :
  guard d (destination d (hName header)) = false ->
  tar_entry d bp (header, os) = ret bp.
Proof. unfold tar_entry, destination. now intros ->. Qed.

(** A round that does not abort keeps or records as [keep] says. *)
Lemma zip_entry_inr d bn bp file os bp' tr :
  zip_entry d bn bp (file, os) = (inr bp', tr) ->
  bp' = keep (zipRecorded d bn) (fun f => destination d (zName f)) bp file.
Proof.
  unfold zip_entry, keep, zipRecorded, destination.
  generalize (Join [d; zName file]); intros path.
  destruct (guard d path), (zIsDir file); cbn [negb andb];
    try (cbn [bind emit check ret fail app]; intros H; injection H as <- _; reflexivity).
  run_cases os; intros H; try discriminate; injection H as <- _; reflexivity.
Qed.

Lemma tar_entry_inr d bp header os bp' tr :
  tar_entry d bp (header, os) = (inr bp', tr) ->
  bp' = keep (tarRecorded d) (fun h => destination d (hName h)) bp header.
Proof.
  unfold tar_entry, keep, tarRecorded, destination.
  generalize (Join [d; hName header]); intros path.
  destruct (guard d path); cbn [negb andb];
    [|cbn [ret]; intros H; injection H as <- _; reflexivity].
  destruct (Ascii.eqb (hTypeflag header) TypeDir) eqn:ED.
  - apply Ascii.eqb_eq in ED. rewrite ED. cbn [andb].
    change (Ascii.eqb TypeDir TypeReg) with false.
    run_cases os; intros H; try discriminate; injection H as <- _; reflexivity.
  - destruct (Ascii.eqb (hTypeflag header) TypeReg); cbn [andb];
      [|cbn [ret]; intros H; injection H as <- _; reflexivity].
    run_cases os; intros H; try discriminate; injection H as <- _; reflexivity.
Qed.

Lemma zip_loop_inr d bn files : forall bp p tr,
  zip_loop d bn bp files = (inr p, tr) ->
  p = fold_left (keep (fun e => zipRecorded d bn (fst e))
                      (fun e => destination d (zName (fst e)))) files bp.
Proof.
  induction files as [|[file os] files IH]; intros bp p tr H.
  - injection H as <- _. reflexivity.
  - cbn [zip_loop] in H. apply bind_inr in H as (bp' & tr1 & tr2 & H1 & H2 & _).
    apply zip_entry_inr in H1. apply IH in H2. subst. reflexivity.
Qed.

Lemma tar_loop_inr d headers : forall bp p tr,
  tar_loop d bp headers = (inr p, tr) ->
  p = fold_left (keep (fun e => tarRecorded d (fst e))
                      (fun e => destination d (hName (fst e)))) headers bp.
Proof.
  induction headers as [|[header os] headers IH]; intros bp p tr H.
  - injection H as <- _. reflexivity.
  - cbn [tar_loop] in H. apply bind_inr in H as (bp' & tr1 & tr2 & H1 & H2 & _).
    apply tar_entry_inr in H1. apply IH in H2. subst. reflexivity.
Qed.

(** The last recorded entry decides what a pass keeps. *)
Lemma fold_keep_cases {E : Type} (recorded : E -> bool) (dest : E -> t) es bp :
  (Forall (fun e => recorded e = false) es /\
   fold_left (keep recorded dest) es bp = bp) \/
  (exists before e after,
     es = before ++ e :: after /\ recorded e = true /\
     Forall (fun e => recorded e = false) after /\
     fold_left (keep recorded dest) es bp = dest e).
Proof.
  induction es as [|e es IH] using rev_ind.
  - left; split; [constructor|reflexivity].
  - rewrite fold_left_app. cbn [fold_left]. unfold keep at 1 3.
    destruct (recorded e) eqn:R.
    + right. exists es, e, []. repeat split; auto.
    + destruct IH as [[HF Hp]|(before & e' & after & -> & R' & HF & Hp)].
      * left. split; [apply Forall_app; split; auto|exact Hp].
      * right. exists before, e', (after ++ [e]).
        rewrite <- app_assoc. repeat split; auto.
        apply Forall_app; split; auto.
Qed.

Lemma zip_loop_app d bn a b bp :
  zip_loop d bn bp (a ++ b) =
  (bp' <- zip_loop d bn bp a ;; zip_loop d bn bp' b).
Proof.
  revert bp; induction a as [|e a IH]; intros bp; cbn [zip_loop app].
  - now rewrite bind_ret_l.
  - rewrite bind_assoc. apply bind_ext. intros bp'. apply IH.
Qed.

Lemma tar_loop_app d a b bp :
  tar_loop d bp (a ++ b) = (bp' <- tar_loop d bp a ;; tar_loop d bp' b).
Proof.
  revert bp; induction a as [|e a IH]; intros bp; cbn [tar_loop app].
  - now rewrite bind_ret_l.
  - rewrite bind_assoc. apply bind_ext. intros bp'. apply IH.
Qed.

Lemma Join_named_Clean d name : named d -> exists x, Join [d; name] = Clean x.
Proof.
  intros H. destruct d as [|c d].
  - apply named_not_nil in H. now contradiction H.
  - eexists. reflexivity.
Qed.

(** Under a named target directory every call of a round targets the
    directory or a path inside it. *)
Lemma zip_entry_within d bn bp entry :
  named d -> Forall (stays_within d) (events (zip_entry d bn bp entry)).
Proof.
  intros Hd. destruct entry as [file os]. unfold zip_entry.
  destruct (Join_named_Clean (zName file) Hd) as [x ->].
  destruct (guard d (Clean x)) eqn:G; cbn [negb]; [|constructor].
  apply guard_inside in G; auto.
  pose proof (inside_within G) as W. pose proof (Dir_within _ Hd G) as WD.
  destruct (zIsDir file).
  - run_simpl. all_events W WD.
  - run_cases os; all_events W WD.
Qed.

Lemma tar_entry_within d bp entry :
  named d -> Forall (stays_within d) (events (tar_entry d bp entry)).
Proof.
  intros Hd. destruct entry as [header os]. unfold tar_entry.
  destruct (Join_named_Clean (hName header) Hd) as [x ->].
  destruct (guard d (Clean x)) eqn:G; cbn [negb]; [|constructor].
  apply guard_inside in G; auto.
  pose proof (inside_within G) as W. pose proof (Dir_within _ Hd G) as WD.
  destruct (Ascii.eqb (hTypeflag header) TypeDir);
    [|destruct (Ascii.eqb (hTypeflag header) TypeReg)];
    run_cases os; all_events W WD.
Qed.

Lemma zip_loop_within d bn files : forall bp,
  named d -> Forall (stays_within d) (events (zip_loop d bn bp files)).
Proof.
  induction files as [|e files IH]; intros bp Hd; [constructor|].
  cbn [zip_loop]. apply events_bind; auto using zip_entry_within.
Qed.

Lemma tar_loop_within d headers : forall bp,
  named d -> Forall (stays_within d) (events (tar_loop d bp headers)).
Proof.
  induction headers as [|e headers IH]; intros bp Hd; [constructor|].
  cbn [tar_loop]. apply events_bind; auto using tar_entry_within.
Qed.

Lemma extractZip_within reader d bn :
  named d -> Forall (stays_within d) (events (extractZip reader d bn)).
Proof.
  intros Hd. destruct reader as [files|]; [|constructor].
  unfold extractZip. apply events_bind; [now apply zip_loop_within|].
  intros p. destruct (eqs p []); constructor.
Qed.

Lemma extractTarGz_within source d :
  named d -> Forall (stays_within d) (events (extractTarGz source d)).
Proof.
  intros Hd. destruct source as [| |headers at_eof]; try constructor.
  unfold extractTarGz. apply events_bind; [now apply tar_loop_within|].
  intros p. apply events_bind; [apply events_check|].
  intros _. destruct (eqs p []); constructor.
Qed.

Lemma outside_guard d name :
  named d -> ~ inside d (destination d name) -> guard d (destination d name) = false.
Proof.
  intros Hd H. unfold destination in *.
  destruct (Join_named_Clean name Hd) as [x E]. rewrite E in *.
  destruct (guard d (Clean x)) eqn:G; [|reflexivity].
  contradiction H. now apply guard_inside.
Qed.

(** A pass over an archive with a rejected entry is the pass over the
    archive without it. *)
Lemma zip_loop_skip d bn before file os after bp :
  guard d (destination d (zName file)) = false ->
  zip_loop d bn bp (before ++ (file, os) :: after)
  = zip_loop d bn bp (before ++ after).
Proof.
  intros G. rewrite !zip_loop_app. apply bind_ext. intros bp'.
  cbn [zip_loop]. now rewrite zip_entry_skip, bind_ret_l.
Qed.

Lemma tar_loop_skip d before header os after bp :
  guard d (destination d (hName header)) = false ->
  tar_loop d bp (before ++ (header, os) :: after)
  = tar_loop d bp (before ++ after).
Proof.
  intros G. rewrite !tar_loop_app. apply bind_ext. intros bp'.
  cbn [tar_loop]. now rewrite tar_entry_skip, bind_ret_l.
Qed.

Lemma named_scratch homeDir : named (scratch homeDir).
Proof.
  apply named_Join; [|discriminate].
  repeat split; try discriminate.
  vm_compute. intuition discriminate.
Qed.

(** When the operating system lets every call succeed, a round ends well,
    keeps or records as [keep] says, and has copied the entry's content if
    it is a file that passed the guard. *)
Lemma zip_entry_ok d bn bp file os :
  answers_ok os ->
  exists tr,
    zip_entry d bn bp (file, os)
    = (inr (keep (fun e => zipRecorded d bn (fst e))
                 (fun e => destination d (zName (fst e))) bp (file, os)), tr) /\
    (guard d (destination d (zName file)) = true -> zIsDir file = false ->
     In (CopyTo (destination d (zName file)) (zData file)) tr).
Proof.
  intros (H1 & H2 & H3 & H4).
  unfold zip_entry, keep, zipRecorded, destination. cbn [fst].
  generalize (Join [d; zName file]); intros path.
  rewrite H1, H2, H3, H4.
  destruct (guard d path), (zIsDir file); cbn [negb andb]; run_simpl;
    eexists; (split; [reflexivity|]); intros; try discriminate.
  simpl; auto.
Qed.

Lemma tar_entry_ok d bp header os :
  answers_ok os ->
  exists tr,
    tar_entry d bp (header, os)
    = (inr (keep (fun e => tarRecorded d (fst e))
                 (fun e => destination d (hName (fst e))) bp (header, os)), tr) /\
    (guard d (destination d (hName header)) = true ->
     hTypeflag header = TypeReg ->
     In (CopyTo (destination d (hName header)) (hData header)) tr).
Proof.
  intros (H1 & H2 & H3 & H4).
  unfold tar_entry, keep, tarRecorded, destination. cbn [fst].
  generalize (Join [d; hName header]); intros path.
  rewrite H1, H3, H4.
  destruct (guard d path); cbn [negb andb]; run_simpl;
    [|eexists; split; [reflexivity|intros; discriminate]].
  destruct (Ascii.eqb (hTypeflag header) TypeDir) eqn:ED.
  - apply Ascii.eqb_eq in ED. rewrite ED.
    change (Ascii.eqb TypeDir TypeReg) with false. cbn [andb]. run_simpl.
    eexists; split; [reflexivity|intros; discriminate].
  - destruct (Ascii.eqb (hTypeflag header) TypeReg) eqn:ER; cbn [andb]; run_simpl.
    + eexists; split; [reflexivity|]. intros; simpl; auto.
    + eexists; split; [reflexivity|]. intros _ E. rewrite E in ER. discriminate.
Qed.

Lemma zip_loop_ok d bn files : forall bp,
  calls_succeed files ->
  exists tr,
    zip_loop d bn bp files
    = (inr (fold_left (keep (fun e => zipRecorded d bn (fst e))
                            (fun e => destination d (zName (fst e)))) files bp), tr) /\
    (forall file os, In (file, os) files ->
       guard d (destination d (zName file)) = true -> zIsDir file = false ->
       In (CopyTo (destination d (zName file)) (zData file)) tr).
Proof.
  induction files as [|[file os] files IH]; intros bp HF.
  - exists []. split; [reflexivity|]. intros ? ? [].
  - inversion HF as [|? ? Hos HF']; subst. cbn [snd] in Hos.
    destruct (zip_entry_ok d bn bp file Hos) as (tr1 & E1 & C1).
    destruct (IH (keep (fun e => zipRecorded d bn (fst e))
                       (fun e => destination d (zName (fst e))) bp (file, os)) HF')
      as (tr2 & E2 & C2).
    exists (tr1 ++ tr2). cbn [zip_loop fold_left]. rewrite E1. cbn [bind]. rewrite E2.
    split; [reflexivity|].
    intros f o [E|Hin] G D; rewrite in_app_iff.
    + injection E as <- <-. left; auto.
    + right; eauto.
Qed.

Lemma tar_loop_ok d headers : forall bp,
  calls_succeed headers ->
  exists tr,
    tar_loop d bp headers
    = (inr (fold_left (keep (fun e => tarRecorded d (fst e))
                            (fun e => destination d (hName (fst e)))) headers bp), tr) /\
    (forall header os, In (header, os) headers ->
       guard d (destination d (hName header)) = true ->
       hTypeflag header = TypeReg ->
       In (CopyTo (destination d (hName header)) (hData header)) tr).
Proof.
  induction headers as [|[header os] headers IH]; intros bp HF.
  - exists []. split; [reflexivity|]. intros ? ? [].
  - inversion HF as [|? ? Hos HF']; subst. cbn [snd] in Hos.
    destruct (tar_entry_ok d bp header Hos) as (tr1 & E1 & C1).
    destruct (IH (keep (fun e => tarRecorded d (fst e))
                       (fun e => destination d (hName (fst e))) bp (header, os)) HF')
      as (tr2 & E2 & C2).
    exists (tr1 ++ tr2). cbn [tar_loop fold_left]. rewrite E1. cbn [bind]. rewrite E2.
    split; [reflexivity|].
    intros f o [E|Hin] G D; rewrite in_app_iff.
    + injection E as <- <-. left; auto.
    + right; eauto.
Qed.

(** A path the guard lets through is never the empty string. *)
Lemma guard_not_nil d p : guard d p = true -> p <> [].
Proof.
  unfold guard. intros H ->. apply HasPrefix_app in H as [rest E].
  destruct (Clean d); discriminate.
Qed.

Lemma fold_keep_none {E : Type} (recorded : E -> bool) (dest : E -> t) es bp :
  Forall (fun e => recorded e = false) es ->
  fold_left (keep recorded dest) es bp = bp.
Proof.
  revert bp; induction es as [|e es IH]; intros bp HF; [reflexivity|].
  inversion HF as [|? ? He HF']; subst. cbn [fold_left]. unfold keep at 2.
  rewrite He. now apply IH.
Qed.

Lemma fold_keep_last {E : Type} (recorded : E -> bool) (dest : E -> t)
    before e after bp :
  recorded e = true -> Forall (fun e => recorded e = false) after ->
  fold_left (keep recorded dest) (before ++ e :: after) bp = dest e.
Proof.
  intros He HF. rewrite fold_left_app. cbn [fold_left]. unfold keep at 2.
  rewrite He. now apply fold_keep_none.
Qed.

(** On a named target directory the extractor records exactly the candidates. *)
Lemma zipRecorded_candidate d bn file :
  named d -> zipRecorded d bn file = true <-> zip_candidate d bn file.
Proof.
  intros Hd. unfold zipRecorded, zip_candidate, destination.
  destruct (Join_named_Clean (zName file) Hd) as [x ->].
  rewrite !andb_true_iff, negb_true_iff, eqs_eq.
  split.
  - intros [[G D] B]. split; [now apply guard_inside|]. split; assumption.
  - intros (G & D & B). split; [split|]; auto. now apply inside_guard.
Qed.

Lemma tarRecorded_candidate d header :
  named d -> tarRecorded d header = true <-> tar_candidate d header.
Proof.
  intros Hd. unfold tarRecorded, tar_candidate, destination.
  destruct (Join_named_Clean (hName header) Hd) as [x ->].
  rewrite !andb_true_iff, orb_true_iff, eqs_eq, Ascii.eqb_eq.
  split.
  - intros [[G D] B]. split; [now apply guard_inside|]. split; [assumption|tauto].
  - intros (G & D & B). split; [split|tauto]; auto. now apply inside_guard.
Qed.

Lemma not_candidates_zip d bn (files : list (zip_file * os_answers)) :
  named d ->
  Forall (fun e => ~ zip_candidate d bn (fst e)) files ->
  Forall (fun e => zipRecorded d bn (fst e) = false) files.
Proof.
  intros Hd. apply Forall_impl. intros [file os] H. cbn [fst] in *.
  destruct (zipRecorded d bn file) eqn:R; [|reflexivity].
  contradiction H. now apply zipRecorded_candidate.
Qed.

Lemma not_candidates_tar d (headers : list (tar_header * os_answers)) :
  named d ->
  Forall (fun e => ~ tar_candidate d (fst e)) headers ->
  Forall (fun e => tarRecorded d (fst e) = false) headers.
Proof.
  intros Hd. apply Forall_impl. intros [header os] H. cbn [fst] in *.
  destruct (tarRecorded d header) eqn:R; [|reflexivity].
  contradiction H. now apply tarRecorded_candidate.
Qed.

Lemma inside_guard_destination d name :
  named d -> inside d (destination d name) -> guard d (destination d name) = true.
Proof.
  intros Hd. unfold destination.
  destruct (Join_named_Clean name Hd) as [x ->]. now apply inside_guard.
Qed.

End ExtractorFacts.

(** * The claims *)

Import GoString Filepath Run Extractor Platform PathUpdater Installer Spec.
Import GoStringFacts FilepathFacts RunFacts ExtractorFacts.

(** C1.  In [extractZip] and in [extractTarGz], an entry whose
    destination path (the scratch directory joined with the stored name)
    does not resolve strictly inside the scratch directory is skipped:
    the run, its result and its events, is the run on the archive without
    that entry, so nothing is written for it and the pass goes on.  And
    every call any extraction makes targets the scratch directory or a
    path inside it.  The scratch directory is the one [installOllama]
    passes, [ollama-extract] under the home directory, whatever the home
    directory is. *)
Theorem traversal_entries_are_skipped :
  forall (homeDir binaryName : t),
    let tempDir := scratch homeDir in
    (forall before file os after,
        ~ inside tempDir (destination tempDir (zName file)) ->
        extractZip (Some (before ++ (file, os) :: after)) tempDir binaryName
        = extractZip (Some (before ++ after)) tempDir binaryName) /\
    (forall before header os after at_eof,
        ~ inside tempDir (destination tempDir (hName header)) ->
        extractTarGz (TarStream (before ++ (header, os) :: after) at_eof) tempDir
        = extractTarGz (TarStream (before ++ after) at_eof) tempDir) /\
    (forall reader,
        Forall (stays_within tempDir) (events (extractZip reader tempDir binaryName))) /\
    (forall source,
        Forall (stays_within tempDir) (events (extractTarGz source tempDir))).
Proof.
  intros homeDir binaryName tempDir.
  pose proof (named_scratch homeDir) as Hd. fold tempDir in Hd.
  repeat split.
  - intros before file os after H. unfold extractZip.
    now rewrite zip_loop_skip by (now apply outside_guard).
  - intros before header os after at_eof H. unfold extractTarGz.
    now rewrite tar_loop_skip by (now apply outside_guard).
  - intros reader. now apply extractZip_within.
  - intros source. now apply extractTarGz_within.
Qed.

Lemma traversal_entries_are_skipped_witness :
  let tempDir := scratch Samples.home in
  let escaping := lit "../../etc/passwd" in
  ~ inside tempDir (destination tempDir escaping) /\
  extractZip
    (Some ([] ++ (Samples.zip_regular "../../etc/passwd" "x", all_ok)
              :: Samples.served [Samples.zip_regular "ollama" "ELF"]))
    tempDir (lit "ollama")
  = extractZip (Some ([] ++ Samples.served [Samples.zip_regular "ollama" "ELF"]))
      tempDir (lit "ollama") /\
  extractTarGz
    (TarStream ([] ++ (Samples.tar_regular "../../etc/passwd" "x", all_ok)
                   :: Samples.served [Samples.tar_regular "bin/ollama" "ELF"]) true)
    tempDir
  = extractTarGz
      (TarStream ([] ++ Samples.served [Samples.tar_regular "bin/ollama" "ELF"]) true)
      tempDir.
Proof.
  intros tempDir escaping.
  assert (~ inside tempDir (destination tempDir escaping)) as H.
  { intros (_ & rest & _ & _ & E). vm_compute in E. discriminate. }
  split; [exact H|]. split.
  - apply (proj1 (traversal_entries_are_skipped Samples.home (lit "ollama"))).
    exact H.
  - apply (proj1 (proj2 (traversal_entries_are_skipped Samples.home (lit "ollama")))).
    exact H.
Defined.

(** What [extractZip] returns when it returns a path: the destination of
    the last entry of the archive that it records. *)
Lemma extractZip_returns files d bn p tr :
  extractZip (Some files) d bn = (inr p, tr) ->
  exists before file os after,
    files = before ++ (file, os) :: after /\
    zipRecorded d bn file = true /\
    Forall (fun e => zipRecorded d bn (fst e) = false) after /\
    p = destination d (zName file).
Proof.
  unfold extractZip. intros H.
  apply bind_inr in H as (bp & tr1 & tr2 & H1 & H2 & _).
  apply zip_loop_inr in H1.
  destruct (eqs_reflect bp []) as [E|E]; [discriminate|].
  injection H2 as <- _.
  destruct (fold_keep_cases (fun e => zipRecorded d bn (fst e))
              (fun e => destination d (zName (fst e))) files [])
    as [[_ Hp]|(before & [file os] & after & Ef & R & HF & Hp)].
  - congruence.
  - exists before, file, os, after. rewrite H1, Hp. auto.
Qed.

Lemma extractTarGz_returns headers at_eof d p tr :
  extractTarGz (TarStream headers at_eof) d = (inr p, tr) ->
  exists before header os after,
    headers = before ++ (header, os) :: after /\
    tarRecorded d header = true /\
    Forall (fun e => tarRecorded d (fst e) = false) after /\
    p = destination d (hName header).
Proof.
  unfold extractTarGz. intros H.
  apply bind_inr in H as (bp & tr1 & tr2 & H1 & H2 & _).
  apply tar_loop_inr in H1.
  apply bind_inr in H2 as (_ & _ & tr3 & _ & H2 & _).
  destruct (eqs_reflect bp []) as [E|E]; [discriminate|].
  injection H2 as <- _.
  destruct (fold_keep_cases (fun e => tarRecorded d (fst e))
              (fun e => destination d (hName (fst e))) headers [])
    as [[_ Hp]|(before & [header os] & after & Ef & R & HF & Hp)].
  - congruence.
  - exists before, header, os, after. rewrite H1, Hp. auto.
Qed.

(** C9.  When [extractZip] or [extractTarGz] returns a binary path without
    error, that path lies strictly inside the scratch directory: it is the
    destination of an entry of the archive that passed the traversal
    guard, the guard being checked before anything is recorded. *)
Theorem returned_binary_is_inside :
  forall (homeDir binaryName : t),
    let tempDir := scratch homeDir in
    (forall files p tr,
        extractZip (Some files) tempDir binaryName = (inr p, tr) ->
        inside tempDir p /\
        exists file os,
          In (file, os) files /\ p = destination tempDir (zName file) /\
          guard tempDir p = true) /\
    (forall source p tr,
        extractTarGz source tempDir = (inr p, tr) ->
        inside tempDir p /\
        exists headers at_eof header os,
          source = TarStream headers at_eof /\
          In (header, os) headers /\ p = destination tempDir (hName header) /\
          guard tempDir p = true).
Proof.
  intros homeDir binaryName tempDir.
  pose proof (named_scratch homeDir) as Hd. fold tempDir in Hd.
  split.
  - intros files p tr H.
    apply extractZip_returns in H as (before & file & os & after & -> & R & _ & ->).
    unfold zipRecorded in R. apply andb_prop in R as [R _].
    apply andb_prop in R as [G _].
    split.
    + unfold destination in *.
      destruct (Join_named_Clean (zName file) Hd) as [x E]. rewrite E in *.
      now apply guard_inside.
    + exists file, os. rewrite in_app_iff. simpl. auto.
  - intros [| |headers at_eof] p tr H; try discriminate.
    apply extractTarGz_returns in H as (before & header & os & after & -> & R & _ & ->).
    unfold tarRecorded in R. apply andb_prop in R as [R _].
    apply andb_prop in R as [G _].
    split.
    + unfold destination in *.
      destruct (Join_named_Clean (hName header) Hd) as [x E]. rewrite E in *.
      now apply guard_inside.
    + exists (before ++ (header, os) :: after), at_eof, header, os.
      rewrite in_app_iff. simpl. auto.
Qed.

Lemma returned_binary_is_inside_witness :
  let tempDir := scratch Samples.home in
  let source :=
    TarStream (Samples.served [Samples.tar_directory "bin";
                               Samples.tar_regular "bin/ollama" "ELF";
                               Samples.tar_directory "lib/ollama"]) true in
  result (extractTarGz source tempDir) = inr (lit "/home/user/ollama-extract/bin/ollama") /\
  inside tempDir (lit "/home/user/ollama-extract/bin/ollama").
Proof.
  intros tempDir source. split; [reflexivity|].
  apply (proj2 (returned_binary_is_inside Samples.home (lit "ollama"))
           source _ (events (extractTarGz source tempDir))).
  reflexivity.
Defined.

(** With every call succeeding, [extractZip] returns the destination of
    the last candidate, however many candidates come before it. *)
Lemma extractZip_last_candidate d bn before file os after :
  named d ->
  calls_succeed (before ++ (file, os) :: after) ->
  zip_candidate d bn file ->
  Forall (fun e => ~ zip_candidate d bn (fst e)) after ->
  exists tr,
    extractZip (Some (before ++ (file, os) :: after)) d bn
    = (inr (destination d (zName file)), tr).
Proof.
  intros Hd Hok C HF.
  destruct (zip_loop_ok d bn [] Hok) as (tr & E & _).
  apply (not_candidates_zip Hd) in HF.
  apply zipRecorded_candidate in C; auto.
  rewrite (fold_keep_last (fun e => zipRecorded d bn (fst e))
             (fun e => destination d (zName (fst e)))
             before (file, os) [] C HF) in E.
  unfold extractZip. rewrite E. cbn [fst bind].
  apply zipRecorded_candidate in C as (G & _); auto.
  apply inside_guard_destination in G; [|exact Hd]. apply guard_not_nil in G.
  apply eqs_neq in G. rewrite G. eexists. reflexivity.
Qed.

(** The same for [extractTarGz] on a stream that is read to its end. *)
Lemma extractTarGz_last_candidate d before header os after :
  named d ->
  calls_succeed (before ++ (header, os) :: after) ->
  tar_candidate d header ->
  Forall (fun e => ~ tar_candidate d (fst e)) after ->
  exists tr,
    extractTarGz (TarStream (before ++ (header, os) :: after) true) d
    = (inr (destination d (hName header)), tr).
Proof.
  intros Hd Hok C HF.
  destruct (tar_loop_ok d [] Hok) as (tr & E & _).
  apply (not_candidates_tar Hd) in HF.
  apply tarRecorded_candidate in C; auto.
  rewrite (fold_keep_last (fun e => tarRecorded d (fst e))
             (fun e => destination d (hName (fst e)))
             before (header, os) [] C HF) in E.
  unfold extractTarGz. rewrite E. cbn [fst bind check ret app].
  apply tarRecorded_candidate in C as (G & _); auto.
  apply inside_guard_destination in G; [|exact Hd]. apply guard_not_nil in G.
  apply eqs_neq in G. rewrite G. eexists. reflexivity.
Qed.

(** C10.  In both routines only a file can be recorded as the binary: a
    round on a zip directory entry, or on a tar header that is not a
    regular file, leaves [binaryPath] as it was.  And the last match wins,
    in both directions.  An archive whose calls all succeed (and, for
    tar.gz, whose stream is read to its end) and in which a matching file
    entry (zip: not a directory, tar: a regular file, destination inside
    the scratch directory) is followed by no other one, makes the routine
    return the destination of that entry, whatever comes before it, other
    matching entries included.  Conversely the path an extraction returns
    is always the destination of such an entry, the last matching one in
    archive order. *)
Theorem only_files_recorded_last_match_wins :
  forall (homeDir binaryName : t),
    let tempDir := scratch homeDir in
    (forall binaryPath file os binaryPath' tr,
        zIsDir file = true ->
        zip_entry tempDir binaryName binaryPath (file, os) = (inr binaryPath', tr) ->
        binaryPath' = binaryPath) /\
    (forall binaryPath header os binaryPath' tr,
        hTypeflag header <> TypeReg ->
        tar_entry tempDir binaryPath (header, os) = (inr binaryPath', tr) ->
        binaryPath' = binaryPath) /\
    (forall before file os after,
        calls_succeed (before ++ (file, os) :: after) ->
        zip_candidate tempDir binaryName file ->
        Forall (fun e => ~ zip_candidate tempDir binaryName (fst e)) after ->
        result (extractZip (Some (before ++ (file, os) :: after)) tempDir binaryName)
        = inr (destination tempDir (zName file))) /\
    (forall before header os after,
        calls_succeed (before ++ (header, os) :: after) ->
        tar_candidate tempDir header ->
        Forall (fun e => ~ tar_candidate tempDir (fst e)) after ->
        result (extractTarGz (TarStream (before ++ (header, os) :: after) true) tempDir)
        = inr (destination tempDir (hName header))) /\
    (forall files p tr,
        extractZip (Some files) tempDir binaryName = (inr p, tr) ->
        exists before file os after,
          files = before ++ (file, os) :: after /\
          p = destination tempDir (zName file) /\
          zip_candidate tempDir binaryName file /\
          Forall (fun e => ~ zip_candidate tempDir binaryName (fst e)) after) /\
    (forall headers at_eof p tr,
        extractTarGz (TarStream headers at_eof) tempDir = (inr p, tr) ->
        exists before header os after,
          headers = before ++ (header, os) :: after /\
          p = destination tempDir (hName header) /\
          tar_candidate tempDir header /\
          Forall (fun e => ~ tar_candidate tempDir (fst e)) after).
Proof.
  intros homeDir binaryName tempDir.
  pose proof (named_scratch homeDir) as Hd. fold tempDir in Hd.
  split; [|split; [|split; [|split; [|split]]]].
  - intros bp file os bp' tr D H. apply zip_entry_inr in H. subst bp'.
    unfold keep, zipRecorded. rewrite D.
    now rewrite andb_false_r.
  - intros bp header os bp' tr D H. apply tar_entry_inr in H. subst bp'.
    unfold keep, tarRecorded.
    destruct (Ascii.eqb (hTypeflag header) TypeReg) eqn:E;
      [apply Ascii.eqb_eq in E; contradiction|].
    now rewrite andb_false_r.
  - intros before file os after Hok C HF.
    destruct (@extractZip_last_candidate tempDir binaryName before file os after
                Hd Hok C HF) as [tr E].
    now rewrite E.
  - intros before header os after Hok C HF.
    destruct (@extractTarGz_last_candidate tempDir before header os after
                Hd Hok C HF) as [tr E].
    now rewrite E.
  - intros files p tr H.
    apply extractZip_returns in H as (before & file & os & after & -> & R & HF & ->).
    exists before, file, os, after.
    split; [reflexivity|]. split; [reflexivity|]. split.
    + now apply zipRecorded_candidate.
    + revert HF. apply Forall_impl. intros [f o] Hf C. cbn [fst] in *.
      apply zipRecorded_candidate in C; auto. congruence.
  - intros headers at_eof p tr H.
    apply extractTarGz_returns in H as (before & header & os & after & -> & R & HF & ->).
    exists before, header, os, after.
    split; [reflexivity|]. split; [reflexivity|]. split.
    + now apply tarRecorded_candidate.
    + revert HF. apply Forall_impl. intros [f o] Hf C. cbn [fst] in *.
      apply tarRecorded_candidate in C; auto. congruence.
Qed.

Lemma only_files_recorded_last_match_wins_witness :
  let tempDir := scratch Samples.home in
  let zip_before :=
    Samples.served [Samples.zip_regular "ollama" "first";
                    Samples.zip_directory "Ollama.app/"] in
  let file := Samples.zip_regular "Ollama.app/Contents/Resources/ollama" "second" in
  let zip_after := Samples.served [Samples.zip_directory "ollama/"] in
  let tar_before :=
    Samples.served [Samples.tar_regular "bin/ollama" "first";
                    Samples.tar_directory "lib/ollama"] in
  let header := Samples.tar_regular "tools/ollama" "second" in
  let tar_after := Samples.served [Samples.tar_directory "ollama"] in
  (calls_succeed (zip_before ++ (file, all_ok) :: zip_after) /\
   zip_candidate tempDir (lit "ollama") (Samples.zip_regular "ollama" "first") /\
   zip_candidate tempDir (lit "ollama") file /\
   Forall (fun e => ~ zip_candidate tempDir (lit "ollama") (fst e)) zip_after /\
   result (extractZip (Some (zip_before ++ (file, all_ok) :: zip_after)) tempDir
             (lit "ollama"))
   = inr (lit "/home/user/ollama-extract/Ollama.app/Contents/Resources/ollama")) /\
  (calls_succeed (tar_before ++ (header, all_ok) :: tar_after) /\
   tar_candidate tempDir (Samples.tar_regular "bin/ollama" "first") /\
   tar_candidate tempDir header /\
   Forall (fun e => ~ tar_candidate tempDir (fst e)) tar_after /\
   result (extractTarGz (TarStream (tar_before ++ (header, all_ok) :: tar_after) true)
             tempDir)
   = inr (lit "/home/user/ollama-extract/tools/ollama")).
Proof.
  intros tempDir zip_before file zip_after tar_before header tar_after.
  assert (forall names, names <> [] -> ~ In dotdot names ->
            elements (lit "/home/user/ollama-extract" ++ Separator :: join names)
            = elements tempDir ++ names ->
            inside tempDir (lit "/home/user/ollama-extract" ++ Separator :: join names))
    as I by (intros names Hne Hdd E; split; [reflexivity|exists names; auto]).
  assert (zip_candidate tempDir (lit "ollama") (Samples.zip_regular "ollama" "first"))
    as Cz1.
  { split; [|split; reflexivity].
    apply (I [lit "ollama"]);
      [discriminate|intros [H|[]]; discriminate H|reflexivity]. }
  assert (zip_candidate tempDir (lit "ollama") file) as Cz.
  { split; [|split; reflexivity].
    apply (I [lit "Ollama.app"; lit "Contents"; lit "Resources"; lit "ollama"]);
      [discriminate|intros [H|[H|[H|[H|[]]]]]; discriminate H|reflexivity]. }
  assert (tar_candidate tempDir (Samples.tar_regular "bin/ollama" "first")) as Ct1.
  { split; [|split; [reflexivity|left; reflexivity]].
    apply (I [lit "bin"; lit "ollama"]);
      [discriminate|intros [H|[H|[]]]; discriminate H|reflexivity]. }
  assert (tar_candidate tempDir header) as Ct.
  { split; [|split; [reflexivity|left; reflexivity]].
    apply (I [lit "tools"; lit "ollama"]);
      [discriminate|intros [H|[H|[]]]; discriminate H|reflexivity]. }
  assert (calls_succeed (zip_before ++ (file, all_ok) :: zip_after)) as Hz
    by (repeat constructor).
  assert (calls_succeed (tar_before ++ (header, all_ok) :: tar_after)) as Ht
    by (repeat constructor).
  assert (Forall (fun e => ~ zip_candidate tempDir (lit "ollama") (fst e)) zip_after)
    as Fz by (constructor; [intros (_ & D & _); discriminate D|constructor]).
  assert (Forall (fun e => ~ tar_candidate tempDir (fst e)) tar_after)
    as Ft by (constructor; [intros (_ & D & _); discriminate D|constructor]).
  split.
  - split; [exact Hz|]. split; [exact Cz1|]. split; [exact Cz|]. split; [exact Fz|].
    exact (proj1 (proj2 (proj2
             (only_files_recorded_last_match_wins Samples.home (lit "ollama"))))
             zip_before file all_ok zip_after Hz Cz Fz).
  - split; [exact Ht|]. split; [exact Ct1|]. split; [exact Ct|]. split; [exact Ft|].
    exact (proj1 (proj2 (proj2 (proj2
             (only_files_recorded_last_match_wins Samples.home (lit "ollama")))))
             tar_before header all_ok tar_after Ht Ct Ft).
Defined.

(** The tar.gz routine is only taken for platforms whose binary is [ollama]. *)
Lemma targz_binary_is_ollama goos :
  formatOf (getPlatformConfig goos) = TarGz ->
  binaryName (getPlatformConfig goos) = ollama.
Proof.
  unfold getPlatformConfig.
  destruct (eqs goos (lit "windows")); [discriminate|].
  destruct (eqs goos (lit "linux")); [reflexivity|].
  destruct (eqs goos (lit "darwin")); [discriminate|reflexivity].
Qed.

(** A path that ends in [bin/<name>] has base name [<name>]: the test of
    [extractTarGz] on the suffix adds nothing to its test on the base name. *)
Lemma bin_suffix_base path :
  bin_suffix_rule ollama path -> base_name_rule ollama path.
Proof.
  intros [front ->]. unfold base_name_rule.
  change (lit "bin/" ++ ollama) with (lit "bin" ++ Separator :: ollama).
  rewrite app_assoc. apply Base_last; [discriminate|].
  vm_compute. intuition discriminate.
Qed.

Lemma tar_rule_in_words path :
  HasSuffix path bin_ollama || eqs (Base path) ollama = true <->
  base_name_rule ollama path \/ bin_suffix_rule ollama path.
Proof.
  rewrite orb_true_iff, eqs_eq, HasSuffix_app. split.
  - intros [[front ->]|B]; [right|left; exact B].
    exists (front ++ [Separator]). now rewrite <- app_assoc.
  - intros [B|S]; [right; exact B|right; now apply bin_suffix_base].
Qed.

(** C3, as stated, fails.  A tar.gz header for a directory [bin/ollama]
    has a destination inside the scratch directory that satisfies both
    disjuncts of the dual rule, and a zip directory entry [ollama/] one
    that satisfies the base-name rule; every call succeeds, and neither
    is recorded: [binaryPath] stays empty. *)
Lemma directory_matching_the_rule_is_not_recorded :
  let tempDir := scratch Samples.home in
  let header := Samples.tar_directory "bin/ollama" in
  let file := Samples.zip_directory "ollama/" in
  (base_name_rule ollama (destination tempDir (hName header)) /\
   bin_suffix_rule ollama (destination tempDir (hName header)) /\
   tar_entry tempDir [] (header, all_ok)
   = (inr [], [MkdirAll (lit "/home/user/ollama-extract/bin/ollama") 493])) /\
  (base_name_rule ollama (destination tempDir (zName file)) /\
   zip_entry tempDir ollama [] (file, all_ok)
   = (inr [], [MkdirAll (lit "/home/user/ollama-extract/ollama") 493])).
Proof.
  repeat split.
  exists (lit "/home/user/ollama-extract/"). reflexivity.
Qed.

(** C3, amended.  An entry the extractor writes out as a file (it lies
    inside the scratch directory, is not a directory resp. is a regular
    file, and its calls succeed) is recorded as the binary exactly under
    the format's rule: in [extractZip] when its base name equals the
    expected binary name, and only then; in [extractTarGz] when its base
    name equals the expected binary name or its path ends in
    [bin/<binaryName>], either of the two, and only then.  The expected
    binary name of the tar.gz routine is that of the platforms resolved
    to the tar.gz format. *)
Theorem matching_rule_per_format :
  forall (homeDir binaryPath : t),
    let tempDir := scratch homeDir in
    (forall binaryName file os,
        let path := destination tempDir (zName file) in
        inside tempDir path -> zIsDir file = false -> answers_ok os ->
        (base_name_rule binaryName path ->
         result (zip_entry tempDir binaryName binaryPath (file, os)) = inr path) /\
        (~ base_name_rule binaryName path ->
         result (zip_entry tempDir binaryName binaryPath (file, os)) = inr binaryPath)) /\
    (forall goos header os,
        let expected := binaryName (getPlatformConfig goos) in
        let path := destination tempDir (hName header) in
        formatOf (getPlatformConfig goos) = TarGz ->
        inside tempDir path -> hTypeflag header = TypeReg -> answers_ok os ->
        (base_name_rule expected path \/ bin_suffix_rule expected path ->
         result (tar_entry tempDir binaryPath (header, os)) = inr path) /\
        (~ (base_name_rule expected path \/ bin_suffix_rule expected path) ->
         result (tar_entry tempDir binaryPath (header, os)) = inr binaryPath)).
Proof.
  intros homeDir binaryPath tempDir.
  pose proof (named_scratch homeDir) as Hd. fold tempDir in Hd.
  split.
  - intros binaryName file os path I D Hos.
    destruct (zip_entry_ok tempDir binaryName binaryPath file Hos) as (tr & E & _).
    rewrite E. cbn [result fst]. unfold keep. cbn [fst]. fold path.
    destruct (zipRecorded tempDir binaryName file) eqn:R.
    + apply zipRecorded_candidate in R as (_ & _ & B); auto. split; tauto.
    + split; [|reflexivity]. intros B.
      assert (zipRecorded tempDir binaryName file = true) as R'
        by (apply zipRecorded_candidate; [assumption|split; [|split]; assumption]).
      congruence.
  - intros goos header os expected path F I T Hos.
    unfold expected. rewrite (targz_binary_is_ollama goos F).
    destruct (tar_entry_ok tempDir binaryPath header Hos) as (tr & E & _).
    rewrite E. cbn [result fst]. unfold keep. cbn [fst]. fold path.
    destruct (tarRecorded tempDir header) eqn:R.
    + split; [reflexivity|]. intros N. contradiction N.
      apply tarRecorded_candidate in R as (_ & _ & B); auto.
      fold path in B. destruct B as [B|B]; [left; exact B|].
      apply tar_rule_in_words. rewrite B. reflexivity.
    + split; [|reflexivity]. intros B.
      assert (tarRecorded tempDir header = true) as R'.
      { apply tarRecorded_candidate; [assumption|]. split; [|split]; try assumption.
        fold path. apply tar_rule_in_words in B. apply orb_prop in B as [B|B].
        - right; exact B.
        - left; now apply eqs_eq. }
      congruence.
Qed.

Lemma matching_rule_per_format_witness :
  let tempDir := scratch Samples.home in
  let header := Samples.tar_regular "bin/ollama" "ELF" in
  let path := destination tempDir (hName header) in
  formatOf (getPlatformConfig (lit "linux")) = TarGz /\
  inside tempDir path /\
  bin_suffix_rule (binaryName (getPlatformConfig (lit "linux"))) path /\
  result (tar_entry tempDir [] (header, all_ok)) = inr path.
Proof.
  intros tempDir header path.
  assert (inside tempDir path) as I.
  { split; [reflexivity|]. exists [lit "bin"; lit "ollama"].
    split; [discriminate|]. split; [intros [H|[H|[]]]; discriminate|reflexivity]. }
  assert (bin_suffix_rule (binaryName (getPlatformConfig (lit "linux"))) path) as S.
  { exists (lit "/home/user/ollama-extract/"). reflexivity. }
  split; [reflexivity|]. split; [exact I|]. split; [exact S|].
  apply (proj2 (matching_rule_per_format Samples.home []) (lit "linux") header all_ok);
    try reflexivity; try exact I.
  - repeat split.
  - right; exact S.
Defined.

(** C2, as stated, fails.  An archive whose only entry is a directory
    named like the binary holds exactly one entry whose base name equals
    the expected binary name, stored and materialized under the scratch
    directory alike; every call succeeds, and the extraction ends with the
    binary-not-found error, in the zip routine and in the tar.gz routine. *)
Lemma lone_directory_named_like_binary_is_not_found :
  let tempDir := scratch Samples.home in
  let expected := lit "ollama" in
  let files := Samples.served [Samples.zip_directory "ollama/"] in
  let headers := Samples.served [Samples.tar_directory "ollama"] in
  (length (filter (fun e => eqs (Base (zName (fst e))) expected) files) = 1 /\
   length (filter (fun e => eqs (Base (destination tempDir (zName (fst e)))) expected)
             files) = 1 /\
   extractZip (Some files) tempDir expected
   = (inl (ErrZipBinaryNotFound expected),
      [MkdirAll (lit "/home/user/ollama-extract/ollama") 493])) /\
  (length (filter (fun e => eqs (Base (hName (fst e))) expected) headers) = 1 /\
   length (filter (fun e => eqs (Base (destination tempDir (hName (fst e)))) expected)
             headers) = 1 /\
   extractTarGz (TarStream headers true) tempDir
   = (inl ErrTarBinaryNotFound,
      [MkdirAll (lit "/home/user/ollama-extract/ollama") 493])).
Proof. vm_compute. repeat split. Qed.

(** C2, amended.  With every call of the pass succeeding (and, for
    tar.gz, the stream read to its end): when the archive holds exactly
    one candidate, i.e. one entry that is a file, lies inside the scratch
    directory and matches the binary-matching rule, the extraction
    succeeds and returns that entry's destination, which is inside the
    scratch directory.  When it holds none, the extraction fails, whatever
    the operating system answers; and with every call succeeding it fails
    with the binary-not-found error, after a pass that copied out every
    file entry inside the scratch directory. *)
Theorem one_candidate_is_returned_none_is_an_error :
  forall (homeDir binaryName : t),
    let tempDir := scratch homeDir in
    (forall before file os after,
        calls_succeed (before ++ (file, os) :: after) ->
        zip_candidate tempDir binaryName file ->
        Forall (fun e => ~ zip_candidate tempDir binaryName (fst e)) (before ++ after) ->
        result (extractZip (Some (before ++ (file, os) :: after)) tempDir binaryName)
        = inr (destination tempDir (zName file)) /\
        inside tempDir (destination tempDir (zName file))) /\
    (forall files,
        Forall (fun e => ~ zip_candidate tempDir binaryName (fst e)) files ->
        (exists err, result (extractZip (Some files) tempDir binaryName) = inl err) /\
        (calls_succeed files ->
         result (extractZip (Some files) tempDir binaryName)
         = inl (ErrZipBinaryNotFound binaryName) /\
         forall file os,
           In (file, os) files ->
           inside tempDir (destination tempDir (zName file)) -> zIsDir file = false ->
           In (CopyTo (destination tempDir (zName file)) (zData file))
              (events (extractZip (Some files) tempDir binaryName)))) /\
    (forall before header os after,
        calls_succeed (before ++ (header, os) :: after) ->
        tar_candidate tempDir header ->
        Forall (fun e => ~ tar_candidate tempDir (fst e)) (before ++ after) ->
        result (extractTarGz (TarStream (before ++ (header, os) :: after) true) tempDir)
        = inr (destination tempDir (hName header)) /\
        inside tempDir (destination tempDir (hName header))) /\
    (forall headers,
        Forall (fun e => ~ tar_candidate tempDir (fst e)) headers ->
        (forall at_eof,
            exists err, result (extractTarGz (TarStream headers at_eof) tempDir) = inl err) /\
        (calls_succeed headers ->
         result (extractTarGz (TarStream headers true) tempDir)
         = inl ErrTarBinaryNotFound /\
         forall header os,
           In (header, os) headers ->
           inside tempDir (destination tempDir (hName header)) ->
           hTypeflag header = TypeReg ->
           In (CopyTo (destination tempDir (hName header)) (hData header))
              (events (extractTarGz (TarStream headers true) tempDir)))).
Proof.
  intros homeDir binaryName tempDir.
  pose proof (named_scratch homeDir) as Hd. fold tempDir in Hd.
  split; [|split; [|split]].
  - intros before file os after Hok C HF.
    destruct (zip_loop_ok tempDir binaryName [] Hok) as (tr & E & _).
    apply Forall_app in HF as [_ HF]. apply (not_candidates_zip Hd) in HF.
    pose proof C as (I & _).
    apply zipRecorded_candidate in C; auto.
    rewrite (fold_keep_last (fun e => zipRecorded tempDir binaryName (fst e))
               (fun e => destination tempDir (zName (fst e)))
               before (file, os) [] C HF) in E.
    unfold extractZip. rewrite E. cbn [fst bind].
    apply zipRecorded_candidate in C as (G & _); auto.
    apply inside_guard_destination in G; [|exact Hd]. apply guard_not_nil in G.
    apply eqs_neq in G. rewrite G. split; [reflexivity|exact I].
  - intros files HF. split.
    { destruct (extractZip (Some files) tempDir binaryName) as [[err|p] tr] eqn:E;
        [now exists err|].
      apply extractZip_returns in E as (before & file & os & after & -> & R & _).
      apply Forall_app in HF as [_ HF]. inversion HF as [|? ? Hn _]; subst.
      contradiction Hn. now apply zipRecorded_candidate. }
    intros Hok.
    destruct (zip_loop_ok tempDir binaryName [] Hok) as (tr & E & Hc).
    apply (not_candidates_zip Hd) in HF.
    rewrite fold_keep_none in E by exact HF.
    unfold extractZip. rewrite E. cbn [bind eqs fail result events fst snd].
    split; [reflexivity|]. intros file os Hin I D. rewrite app_nil_r.
    apply Hc with (os := os); auto. now apply inside_guard_destination.
  - intros before header os after Hok C HF.
    destruct (tar_loop_ok tempDir [] Hok) as (tr & E & _).
    apply Forall_app in HF as [_ HF]. apply (not_candidates_tar Hd) in HF.
    pose proof C as (I & _).
    apply tarRecorded_candidate in C; auto.
    rewrite (fold_keep_last (fun e => tarRecorded tempDir (fst e))
               (fun e => destination tempDir (hName (fst e)))
               before (header, os) [] C HF) in E.
    unfold extractTarGz. rewrite E. cbn [fst bind check ret app].
    apply tarRecorded_candidate in C as (G & _); auto.
    apply inside_guard_destination in G; [|exact Hd]. apply guard_not_nil in G.
    apply eqs_neq in G. rewrite G. split; [reflexivity|exact I].
  - intros headers HF. split.
    { intros at_eof.
      destruct (extractTarGz (TarStream headers at_eof) tempDir) as [[err|p] tr] eqn:E;
        [now exists err|].
      apply extractTarGz_returns in E as (before & header & os & after & -> & R & _).
      apply Forall_app in HF as [_ HF]. inversion HF as [|? ? Hn _]; subst.
      contradiction Hn. now apply tarRecorded_candidate. }
    intros Hok.
    destruct (tar_loop_ok tempDir [] Hok) as (tr & E & Hc).
    apply (not_candidates_tar Hd) in HF.
    rewrite fold_keep_none in E by exact HF.
    unfold extractTarGz. rewrite E. cbn [bind check ret eqs fail result events fst snd app].
    split; [reflexivity|]. intros header os Hin I D. rewrite !app_nil_r.
    apply Hc with (os := os); auto. now apply inside_guard_destination.
Qed.

Lemma one_candidate_is_returned_none_is_an_error_witness :
  let tempDir := scratch Samples.home in
  let before := Samples.served [Samples.tar_directory "bin"] in
  let header := Samples.tar_regular "bin/ollama" "ELF" in
  let after := Samples.served [Samples.tar_directory "lib/ollama"] in
  calls_succeed (before ++ (header, all_ok) :: after) /\
  tar_candidate tempDir header /\
  Forall (fun e => ~ tar_candidate tempDir (fst e)) (before ++ after) /\
  result (extractTarGz (TarStream (before ++ (header, all_ok) :: after) true) tempDir)
  = inr (lit "/home/user/ollama-extract/bin/ollama").
Proof.
  intros tempDir before header after.
  assert (calls_succeed (before ++ (header, all_ok) :: after)) as Hok
    by (repeat constructor).
  assert (tar_candidate tempDir header) as C.
  { split; [|split; [reflexivity|left; reflexivity]].
    split; [reflexivity|]. exists [lit "bin"; lit "ollama"].
    split; [discriminate|]. split; [intros [H|[H|[]]]; discriminate|reflexivity]. }
  assert (Forall (fun e => ~ tar_candidate tempDir (fst e)) (before ++ after)) as HF
    by (repeat constructor; intros (_ & T & _); discriminate T).
  split; [exact Hok|]. split; [exact C|]. split; [exact HF|].
  apply (proj1 (proj2 (proj2
           (one_candidate_is_returned_none_is_an_error Samples.home (lit "ollama"))))
           before header all_ok after Hok C HF).
Defined.

(** C4, amended.  [getPlatformConfig] is a function of the
    operating-system identifier alone and gives a configuration for every
    identifier.  It recognizes three platforms, [windows], [linux] and
    [darwin], with three different download templates and no two of them
    with the same pair of archive format and install path; any other
    identifier gets the Linux configuration. *)
Theorem platform_resolver_total_with_fallback :
  forall goos : t,
    (exists config, getPlatformConfig goos = config) /\
    (downloadURLTemplate (getPlatformConfig (lit "windows"))
       <> downloadURLTemplate (getPlatformConfig (lit "linux")) /\
     downloadURLTemplate (getPlatformConfig (lit "windows"))
       <> downloadURLTemplate (getPlatformConfig (lit "darwin")) /\
     downloadURLTemplate (getPlatformConfig (lit "linux"))
       <> downloadURLTemplate (getPlatformConfig (lit "darwin"))) /\
    (convention (lit "windows") <> convention (lit "linux") /\
     convention (lit "windows") <> convention (lit "darwin") /\
     convention (lit "linux") <> convention (lit "darwin")) /\
    (goos <> lit "windows" -> goos <> lit "linux" -> goos <> lit "darwin" ->
     getPlatformConfig goos = getPlatformConfig (lit "linux")).
Proof.
  intros goos. split; [eexists; reflexivity|].
  split; [repeat split; discriminate|].
  split; [repeat split; discriminate|].
  intros Hw Hl Hd. unfold getPlatformConfig at 1.
  apply eqs_neq in Hw, Hl, Hd. now rewrite Hw, Hl, Hd.
Qed.

(** C4, as stated, fails where it calls the archive format and the
    install-path convention of each platform distinct: Windows and macOS
    share the zip format and the temporary file name, Linux and macOS
    share the install path. *)
Lemma platforms_share_format_or_install_path :
  formatOf (getPlatformConfig (lit "windows"))
  = formatOf (getPlatformConfig (lit "darwin")) /\
  tempFileName (getPlatformConfig (lit "windows"))
  = tempFileName (getPlatformConfig (lit "darwin")) /\
  installPath (getPlatformConfig (lit "linux"))
  = installPath (getPlatformConfig (lit "darwin")).
Proof. repeat split. Qed.

Lemma platform_resolver_total_with_fallback_witness :
  lit "freebsd" <> lit "windows" /\ lit "freebsd" <> lit "linux" /\
  lit "freebsd" <> lit "darwin" /\
  getPlatformConfig (lit "freebsd") = getPlatformConfig (lit "linux") /\
  formatOf (getPlatformConfig (lit "freebsd")) = TarGz.
Proof.
  assert (lit "freebsd" <> lit "windows") as Hw by discriminate.
  assert (lit "freebsd" <> lit "linux") as Hl by discriminate.
  assert (lit "freebsd" <> lit "darwin") as Hd by discriminate.
  split; [exact Hw|]. split; [exact Hl|]. split; [exact Hd|].
  pose proof (proj2 (proj2 (proj2
                (platform_resolver_total_with_fallback (lit "freebsd")))) Hw Hl Hd) as E.
  split; [exact E|]. rewrite E. reflexivity.
Defined.

(** C5.  For every platform identifier, recognized or not, the binary
    name of the configuration is the last element of its install path:
    the base name of the install path, which ends with a separator and
    the binary name. *)
Theorem binary_name_is_install_path_suffix :
  forall goos : t,
    let config := getPlatformConfig goos in
    Base (installPath config) = binaryName config /\
    HasSuffix (installPath config) (Separator :: binaryName config) = true.
Proof.
  intros goos. unfold getPlatformConfig.
  destruct (eqs goos (lit "windows")); [split; reflexivity|].
  destruct (eqs goos (lit "linux")); [split; reflexivity|].
  destruct (eqs goos (lit "darwin")); split; reflexivity.
Qed.

(** ** The orchestrator *)

(** C6.  When the download request is answered with a status other than
    200 (404, say), [downloadFile] fails with the download error before
    it creates the temporary file; [installOllama] returns that error
    wrapped, having done nothing but the deferred removal of the
    temporary file, so neither the install directory nor the scratch
    directory is touched and no extraction call is made; and [main] exits
    with status 1. *)
Theorem failed_download_aborts_and_cleans_up :
  forall (h : host) (homeDir version body : t) (status : Z),
    getLatestOllamaVersion h = inr version ->
    UserHomeDir h = Some homeDir ->
    download h = Responds status body ->
    status <> StatusOK ->
    let url := getDownloadURL (GOOS h) version in
    let tempFile := tempFileOf h homeDir in
    downloadFile h url tempFile = (inl (ErrDownloadStatus status), []) /\
    installOllama h url
    = (inl (ErrDownload (ErrDownloadStatus status)), [Remove tempFile]) /\
    main h = (1%Z, [Remove tempFile]).
Proof.
  intros h homeDir version body status Hv Hh Hd Hs url tempFile.
  assert (downloadFile h url tempFile = (inl (ErrDownloadStatus status), [])) as D.
  { unfold downloadFile. rewrite Hd.
    apply Z.eqb_neq in Hs. now rewrite Hs. }
  assert (installOllama h url
          = (inl (ErrDownload (ErrDownloadStatus status)), [Remove tempFile])) as I.
  { unfold installOllama. rewrite Hh. fold (tempFileOf h homeDir). fold tempFile.
    rewrite D. reflexivity. }
  split; [exact D|]. split; [exact I|].
  unfold main. rewrite Hv. fold url. now rewrite I.
Qed.

Lemma failed_download_aborts_and_cleans_up_witness :
  let h := Samples.linux_host (Responds 404 (lit "Not Found")) true in
  getLatestOllamaVersion h = inr (lit "v0.5.1") /\
  UserHomeDir h = Some Samples.home /\
  download h = Responds 404 (lit "Not Found") /\
  404%Z <> StatusOK /\
  main h = (1%Z, [Remove (lit "/home/user/ollama.tgz")]).
Proof.
  intros h.
  assert (404%Z <> StatusOK) as Hs by discriminate.
  repeat (split; [first [reflexivity | exact Hs]|]).
  exact (proj2 (proj2
           (failed_download_aborts_and_cleans_up h (status := 404)
              eq_refl eq_refl eq_refl Hs))).
Defined.

(** Once the earlier stages have succeeded, [installOllama] succeeds
    with the events of those stages followed by what the PATH stage
    prints, the success message and the deferred clean-up. *)
Lemma installOllama_after_install (h : host) (homeDir url : t) :
  UserHomeDir h = Some homeDir ->
  result (downloadFile h url (tempFileOf h homeDir)) = inr tt ->
  bindir_ok h = true ->
  result (extractAndInstall h (tempFileOf h homeDir) (scratch homeDir)
            (finalPathOf h homeDir) (getPlatformConfig (GOOS h))) = inr tt ->
  exists done,
    installOllama h url
    = (inr (snd (pathStage h homeDir)),
       done ++ fst (pathStage h homeDir)
            ++ [Installed (finalPathOf h homeDir); RemoveAll (scratch homeDir);
                Remove (tempFileOf h homeDir)]).
Proof.
  intros Hh Hd Hb He.
  unfold tempFileOf, finalPathOf, binDirOf, scratch in *.
  unfold installOllama. rewrite Hh.
  destruct (downloadFile h _ _) as [[e|[]] tr1]; [discriminate|].
  destruct (extractAndInstall h _ _ _ _) as [[e|[]] tr2]; [discriminate|].
  rewrite Hb. destruct (pathStage h homeDir) as [warnings fs].
  cbn [negb wrap bind emit check ret defer fst snd].
  exists (tr1 ++ MkdirAll (if eqs (GOOS h) (lit "windows")
                          then Join [homeDir; lit "AppData"; lit "Local";
                                     lit "Programs"; lit "Ollama"]
                          else Join [homeDir; lit "bin"]) executableMode :: tr2).
  f_equal. rewrite <- ?app_assoc. cbn [app]. rewrite <- ?app_assoc. reflexivity.
Qed.

(** C7.  When the download, the creation of the install directory and
    [extractAndInstall] (extraction, copy of the binary, permission set)
    have succeeded, [installOllama] returns no error and [main] exits
    with status 0, whatever [updatePath] does; where the PATH stage runs
    (everywhere but on Windows) a failure of [updatePath] is printed as a
    warning and nothing more: the success message and the deferred
    clean-up follow it. *)
Theorem path_update_failure_is_only_a_warning :
  forall (h : host) (homeDir version : t),
    let config := getPlatformConfig (GOOS h) in
    let url := getDownloadURL (GOOS h) version in
    let tempFile := tempFileOf h homeDir in
    let tempDir := scratch homeDir in
    getLatestOllamaVersion h = inr version ->
    UserHomeDir h = Some homeDir ->
    result (downloadFile h url tempFile) = inr tt ->
    bindir_ok h = true ->
    result (extractAndInstall h tempFile tempDir (finalPathOf h homeDir) config) = inr tt ->
    (exists fs, result (installOllama h url) = inr fs) /\
    fst (main h) = 0%Z /\
    (forall err fs',
        GOOS h <> lit "windows" ->
        updatePath (GOOS h) (PATH h) (powershell_ok h) (shell h) homeDir = (inl err, fs') ->
        result (installOllama h url) = inr fs' /\
        exists done,
          events (installOllama h url)
          = done ++ [Warning err; Installed (finalPathOf h homeDir);
                     RemoveAll tempDir; Remove tempFile]).
Proof.
  intros h homeDir version config url tempFile tempDir Hv Hh Hd Hb He.
  destruct (installOllama_after_install h url Hh Hd Hb He) as [done I].
  split; [eexists; now rewrite I|].
  split; [unfold main; rewrite Hv; fold url; now rewrite I|].
  intros err fs' Hw Hu. rewrite I. cbn [result events fst snd].
  unfold pathStage. apply eqs_neq in Hw. rewrite Hw, Hu. cbn [negb fst snd].
  split; [reflexivity|]. exists done. reflexivity.
Qed.

Lemma path_update_failure_is_only_a_warning_witness :
  let h := Samples.linux_host (Responds 200 (lit "archive")) false in
  UserHomeDir h = Some Samples.home /\
  updatePath (GOOS h) (PATH h) (powershell_ok h) (shell h) Samples.home
  = (inl ErrNoShellConfig, shell h) /\
  fst (main h) = 0%Z /\
  In (Warning ErrNoShellConfig) (snd (main h)).
Proof.
  intros h.
  pose proof (path_update_failure_is_only_a_warning h (homeDir := Samples.home)
                (version := lit "v0.5.1") eq_refl eq_refl eq_refl eq_refl eq_refl)
    as (_ & M & _).
  split; [reflexivity|]. split; [reflexivity|]. split; [exact M|].
  vm_compute. tauto.
Defined.

(** ** The PATH updater *)

Module PathUpdaterFacts.
Import GoString Filepath Run PathUpdater Spec GoStringFacts.

Lemma Contains_app s pat :
  Contains s pat = true <-> exists a b, s = a ++ pat ++ b.
Proof.
  induction s as [|c s IH].
  - cbn [Contains]. rewrite orb_false_r, HasPrefix_app. split.
    + intros [rest H]. now exists [], rest.
    + intros (a & b & H). destruct a; [|discriminate]. now exists b.
  - cbn [Contains]. rewrite orb_true_iff, HasPrefix_app, IH. split.
    + intros [[rest H]|(a & b & H)].
      * now exists [], rest.
      * exists (c :: a), b. now rewrite H.
    + intros ([|x a] & b & H).
      * left. now exists b.
      * right. injection H as _ H. now exists a, b.
Qed.

Lemma raw_lines_cons c s :
  c <> newline ->
  exists l ls, raw_lines (c :: s) = (c :: l) :: ls /\
               (raw_lines s = l :: ls \/ (raw_lines s = [] /\ l = [] /\ ls = [])).
Proof.
  intros H. cbn [raw_lines]. apply Ascii.eqb_neq in H. rewrite H.
  destruct (raw_lines s) as [|l ls]; eauto 7.
Qed.

(** A text that begins with a pattern free of line feeds has a first
    line that begins with it. *)
Lemma first_line_prefix pat : forall s,
  pat <> [] -> ~ In newline pat -> HasPrefix s pat = true ->
  exists l ls, raw_lines s = l :: ls /\ HasPrefix l pat = true.
Proof.
  induction pat as [|p pat IH]; intros s Hne Hnl H; [congruence|].
  destruct s as [|c s]; [discriminate|].
  cbn [HasPrefix] in H. apply andb_prop in H as [E H].
  apply Ascii.eqb_eq in E. subst c.
  assert (p <> newline) as Hp by (intros ->; apply Hnl; left; reflexivity).
  destruct (raw_lines_cons s Hp) as (l & ls & R & Hs). rewrite R.
  exists (p :: l), ls. split; [reflexivity|].
  cbn [HasPrefix]. rewrite Ascii.eqb_refl. cbn [andb].
  destruct pat as [|q pat]; [now destruct l|].
  destruct (IH s) as (l' & ls' & R' & H'); [discriminate|simpl in *; tauto|exact H|].
  destruct Hs as [Hs|(Hs & _)]; rewrite Hs in R'; [|discriminate].
  now injection R' as <- <-.
Qed.

(** A pattern free of line feeds that occurs in a text occurs in one of its lines. *)
Lemma Contains_line pat : forall s,
  pat <> [] -> ~ In newline pat -> Contains s pat = true ->
  exists line, In line (raw_lines s) /\ Contains line pat = true.
Proof.
  intros s Hne Hnl. induction s as [|c s IH]; intros H.
  - destruct pat; [congruence|discriminate].
  - cbn [Contains] in H. apply orb_prop in H as [H|H].
    + destruct (first_line_prefix _ Hne Hnl H) as (l & ls & R & P).
      exists l. rewrite R. split; [left; reflexivity|].
      destruct l; cbn [Contains]; rewrite P; reflexivity.
    + destruct (IH H) as (line & Hin & C).
      cbn [raw_lines]. destruct (Ascii.eqb c newline).
      * exists line. split; [right; exact Hin|exact C].
      * destruct (raw_lines s) as [|l ls]; [contradiction|].
        destruct Hin as [->|Hin].
        -- exists (c :: line). split; [left; reflexivity|].
           cbn [Contains]. rewrite C. apply orb_true_r.
        -- exists line. split; [right; exact Hin|exact C].
Qed.

Lemma Contains_dropCR pat line :
  pat <> [] -> ~ In carriage_return pat ->
  Contains line pat = true -> Contains (dropCR line) pat = true.
Proof.
  intros Hne Hcr H. unfold dropCR.
  destruct (rev line) as [|c front] eqn:R; [exact H|].
  destruct (Ascii.eqb c carriage_return) eqn:E; [|exact H].
  apply Ascii.eqb_eq in E. subst c.
  apply (f_equal (@rev ascii)) in R. rewrite rev_involutive in R. simpl in R.
  apply Contains_app in H as (a & b & H). apply Contains_app.
  rewrite R in H.
  destruct b as [|x b _] using rev_ind.
  - rewrite app_nil_r in H.
    destruct pat as [|y pat _] using rev_ind; [congruence|].
    rewrite app_assoc in H. apply app_inj_tail in H as [_ H].
    exfalso. apply Hcr. rewrite in_app_iff. right; left; auto.
  - rewrite !app_assoc in H. apply app_inj_tail in H as [H _].
    exists a, b. now rewrite app_assoc.
Qed.

Lemma scan_fit lines :
  Forall (fun line => length line < MaxScanTokenSize) lines ->
  scan lines = map dropCR lines.
Proof.
  induction 1 as [|l ls Hl _ IH]; [reflexivity|].
  cbn [scan map]. apply Nat.leb_gt in Hl. now rewrite Hl, IH.
Qed.

Lemma pathExport_plain :
  pathExport <> [] /\ ~ In newline pathExport /\ ~ In carriage_return pathExport.
Proof. vm_compute. intuition discriminate. Qed.

(** On a file that can be read and whose lines fit the scanner's buffer,
    [pathAlreadyExists] finds the export line wherever it is. *)
Lemma pathAlreadyExists_detects fs filePath text :
  content fs filePath = Some text -> read_ok fs filePath = true ->
  lines_fit text -> Contains text pathExport = true ->
  pathAlreadyExists fs filePath pathExport = true.
Proof.
  intros Hc Hr Hfit H. unfold pathAlreadyExists. rewrite Hc, Hr.
  destruct pathExport_plain as (Hne & Hnl & Hcr).
  rewrite scan_fit by exact Hfit.
  destruct (Contains_line _ Hne Hnl H) as (line & Hin & C).
  apply existsb_exists. exists (dropCR line). split.
  - now apply in_map.
  - now apply Contains_dropCR.
Qed.

Lemma HasPrefix_before_newline pat : forall s rest,
  ~ In newline pat -> HasPrefix (s ++ newline :: rest) pat = HasPrefix s pat.
Proof.
  induction pat as [|p pat IH]; intros s rest Hnl; [now destruct s|].
  assert (p <> newline) as Hp by (intros ->; apply Hnl; left; reflexivity).
  destruct s as [|c s]; cbn [app HasPrefix].
  - apply Ascii.eqb_neq in Hp. rewrite Ascii.eqb_sym, Hp. reflexivity.
  - rewrite IH by (simpl in Hnl; tauto). reflexivity.
Qed.

(** Occurrences of a pattern free of line feeds do not straddle a line feed. *)
Lemma occurrences_append pat text rest :
  pat <> [] -> ~ In newline pat ->
  occurrences (text ++ newline :: rest) pat
  = occurrences text pat + occurrences (newline :: rest) pat.
Proof.
  intros Hne Hnl. induction text as [|c text IH].
  - destruct pat; [congruence|reflexivity].
  - change (occurrences ((c :: text) ++ newline :: rest) pat)
      with ((if HasPrefix ((c :: text) ++ newline :: rest) pat then 1 else 0)
            + occurrences (text ++ newline :: rest) pat).
    change (occurrences (c :: text) pat)
      with ((if HasPrefix (c :: text) pat then 1 else 0) + occurrences text pat).
    rewrite IH, HasPrefix_before_newline by exact Hnl.
    apply Nat.add_assoc.
Qed.

Lemma occurrences_addition text :
  occurrences (text ++ addition) pathExport = occurrences text pathExport + 1.
Proof.
  destruct pathExport_plain as (Hne & Hnl & _).
  unfold addition. rewrite occurrences_append by assumption. reflexivity.
Qed.

Lemma content_write fs path text :
  content (write fs path text) path = Some text.
Proof. unfold write; cbn [content]. now rewrite eqs_refl. Qed.

Lemma content_write_other fs path text p :
  p <> path -> content (write fs path text) p = content fs p.
Proof. intros H. unfold write; cbn [content]. apply eqs_neq in H. now rewrite H. Qed.

(** A successful second loop of [updateUnixPath] has appended the export
    line, between line feeds, to one of the candidates. *)
Lemma appendFirst_inr homeDir candidates : forall fs fs1,
  appendFirst fs homeDir candidates = (inr tt, fs1) ->
  exists configFile text,
    In configFile candidates /\
    content fs1 (Join [homeDir; configFile]) = Some (text ++ addition).
Proof.
  induction candidates as [|f rest IH]; intros fs fs1 H; [discriminate|].
  cbn [appendFirst] in H.
  destruct (eqs f (lit ".zshrc") && negb (fileExists fs (Join [homeDir; f]))).
  - destruct (IH _ _ H) as (g & text & Hin & C). exists g, text. split; [right|]; auto.
  - unfold appendToFile in H.
    destruct (append_answers fs (Join [homeDir; f])).
    + destruct (IH _ _ H) as (g & text & Hin & C). exists g, text. split; [right|]; auto.
    + destruct (IH _ _ H) as (g & text & Hin & C). exists g, text. split; [right|]; auto.
    + injection H as <-. exists f, (existing fs (Join [homeDir; f])).
      split; [left; reflexivity|apply content_write].
Qed.

(** With no write breaking off, the candidate appended to is the only
    file that changes, and it gains exactly one occurrence of the line. *)
Lemma appendFirst_once homeDir candidates : forall fs fs1,
  writes_complete fs ->
  appendFirst fs homeDir candidates = (inr tt, fs1) ->
  exists configFile,
    In configFile candidates /\
    content fs1 (Join [homeDir; configFile])
    = Some (existing fs (Join [homeDir; configFile]) ++ addition) /\
    (forall p, p <> Join [homeDir; configFile] -> content fs1 p = content fs p) /\
    occurrences (existing fs1 (Join [homeDir; configFile])) pathExport
    = occurrences (existing fs (Join [homeDir; configFile])) pathExport + 1.
Proof.
  induction candidates as [|f rest IH]; intros fs fs1 Hw H; [discriminate|].
  cbn [appendFirst] in H.
  destruct (eqs f (lit ".zshrc") && negb (fileExists fs (Join [homeDir; f]))).
  - destruct (IH _ _ Hw H) as (g & Hin & C). exists g. split; [right|]; auto.
  - unfold appendToFile in H.
    destruct (append_answers fs (Join [homeDir; f])) eqn:A.
    + destruct (IH _ _ Hw H) as (g & Hin & C). exists g. split; [right|]; auto.
    + now apply Hw in A.
    + injection H as <-. exists f. split; [left; reflexivity|].
      split; [apply content_write|]. split.
      * intros p Hp. now apply content_write_other.
      * unfold existing at 1. rewrite content_write. apply occurrences_addition.
Qed.

(** Idempotence where the files can be read and their lines fit the
    scanner: after a run that succeeded, a second run succeeds and leaves
    every file as it is. *)
Lemma updateUnixPath_idempotent fs homeDir fs1 :
  updateUnixPath fs homeDir = (inr tt, fs1) ->
  (forall configFile text,
      In configFile configFiles ->
      content fs1 (Join [homeDir; configFile]) = Some text ->
      read_ok fs1 (Join [homeDir; configFile]) = true /\ lines_fit text) ->
  updateUnixPath fs1 homeDir = (inr tt, fs1).
Proof.
  unfold updateUnixPath at 1. intros H Hfit.
  destruct (existsb _ configFiles) eqn:E.
  - injection H as <-. unfold updateUnixPath. now rewrite E.
  - apply appendFirst_inr in H as (f & text & Hin & C).
    destruct (Hfit f _ Hin C) as [Hr Hl].
    unfold updateUnixPath.
    replace (existsb _ configFiles) with true; [reflexivity|].
    symmetry. apply existsb_exists. exists f. split; [exact Hin|].
    apply pathAlreadyExists_detects with (text := text ++ addition); auto.
    apply Contains_app. exists (text ++ [newline]), [newline].
    unfold addition. now rewrite <- !app_assoc.
Qed.

(** A file that already holds the export line, can be read and has lines
    that fit the scanner makes the updater return at once. *)
Lemma updateUnixPath_present fs homeDir configFile text :
  In configFile configFiles ->
  content fs (Join [homeDir; configFile]) = Some text ->
  read_ok fs (Join [homeDir; configFile]) = true -> lines_fit text ->
  Contains text pathExport = true ->
  updateUnixPath fs homeDir = (inr tt, fs).
Proof.
  intros Hin C Hr Hl H. unfold updateUnixPath.
  replace (existsb _ configFiles) with true; [reflexivity|].
  symmetry. apply existsb_exists. exists configFile. split; [exact Hin|].
  now apply pathAlreadyExists_detects with (text := text).
Qed.

End PathUpdaterFacts.

(** C8 on the code.  A [.bash_profile] that already holds the export
    line, on a line of its own, after a first line of 131072 bytes: the
    file can be read and written, yet [pathAlreadyExists] misses the
    line, since the scanner gives up at the long line and the result of
    [scanner.Err()] is never looked at; so [updateUnixPath] appends the
    export line again, and the file, which held it once, holds it twice.
    Likewise two runs on the file with the long line alone leave two
    occurrences of the export line, not one. *)
Theorem export_line_after_long_line_is_duplicated :
  let fs := Samples.shell_with [(Samples.bash_profile, Samples.long_line_profile)] true in
  let fs' := snd (updateUnixPath fs Samples.home) in
  let fs0 := Samples.shell_with [(Samples.bash_profile, Samples.long_line_only)] true in
  let fs1 := snd (updateUnixPath fs0 Samples.home) in
  let fs2 := snd (updateUnixPath fs1 Samples.home) in
  (Contains Samples.long_line_profile pathExport = true /\
   occurrences Samples.long_line_profile pathExport = 1 /\
   pathAlreadyExists fs Samples.bash_profile pathExport = false /\
   fst (updateUnixPath fs Samples.home) = inr tt /\
   eqs (existing fs' Samples.bash_profile)
       (Samples.long_line_profile ++ newline :: pathExport ++ [newline]) = true /\
   occurrences (existing fs' Samples.bash_profile) pathExport = 2) /\
  (occurrences (existing fs0 Samples.bash_profile) pathExport = 0 /\
   fst (updateUnixPath fs0 Samples.home) = inr tt /\
   occurrences (existing fs1 Samples.bash_profile) pathExport = 1 /\
   fst (updateUnixPath fs1 Samples.home) = inr tt /\
   occurrences (existing fs2 Samples.bash_profile) pathExport = 2).
Proof. vm_compute. repeat split. Qed.

(** * Further properties of the code *)

(** ** The extractor *)

Module ExtractorMore.
Import GoString Filepath Run Extractor Spec GoStringFacts FilepathFacts RunFacts
       ExtractorFacts.
Local Open Scope run_scope.






Lemma extractTarGz_events headers at_eof d :
  events (extractTarGz (TarStream headers at_eof) d) = events (tar_loop d [] headers).
Proof.
  unfold extractTarGz. destruct (tar_loop d [] headers) as [[e|p] tr]; [reflexivity|].
  cbn [bind]. destruct at_eof; cbn [check bind ret fail events snd];
    [destruct (eqs p [])|]; cbn [fail ret events snd]; apply app_nil_r.
Qed.

End ExtractorMore.

Import ExtractorMore PathUpdaterFacts.



(** X2.  For any target directory that has a name of its own, the
    traversal guard of both routines is exact: the destination computed for
    a stored name passes the string comparison when, and only when, it
    lies strictly inside the target directory.  So no entry inside the
    target directory is ever rejected, and none outside is let through. *)
Theorem guard_is_exact_for_named_directories :
  forall (tempDir name : t),
    named tempDir ->
    (guard tempDir (destination tempDir name) = true <->
     inside tempDir (destination tempDir name)).
Proof.
  intros tempDir name Hd. unfold destination.
  destruct (Join_named_Clean name Hd) as [x ->].
  split; [now apply guard_inside|now apply inside_guard].
Qed.

Lemma guard_is_exact_for_named_directories_witness :
  named (lit "/opt/tools") /\
  guard (lit "/opt/tools") (destination (lit "/opt/tools") (lit "a/../b/./c")) = true /\
  inside (lit "/opt/tools") (lit "/opt/tools/b/c").
Proof.
  assert (named (lit "/opt/tools")) as Hd.
  { exists [lit "opt"], (lit "tools"). split; [reflexivity|discriminate]. }
  split; [exact Hd|]. split; [reflexivity|].
  exact (proj1 (guard_is_exact_for_named_directories (lit "a/../b/./c") Hd) eq_refl).
Defined.

Import Touch.

(* From here on every argument of a lemma is written out where it is used. *)
Unset Implicit Arguments.

(** A cleaned path never continues the root with a second separator, nor
    the working directory [.] with a separator. *)
Lemma Clean_not_under_empty x r s : Clean x <> render r [] ++ Separator :: s.
Proof.
  rewrite Clean_render. pose proof (elements_wf x) as W.
  pose proof (wf_proper W) as HF.
  destruct r; [change (render true []) with [Separator]
              |change (render false []) with ["."%char]];
    destruct (isRooted x), (elements x) as [|w ws]; cbn [render app];
    try change (join []) with (@nil ascii); try discriminate;
    destruct (join_head w ws) as [tail Ej]; rewrite Ej;
    inversion HF as [|? ? (Hne & Hdot & Hfree) _]; subst;
    (destruct w as [|c w]; [congruence|]); intros E.
  - injection E as -> _. apply Hfree. left; reflexivity.
  - injection E as -> _. apply Hfree. left; reflexivity.
  - injection E as -> E.
    destruct w as [|c w]; [now apply Hdot|]. injection E as -> _.
    apply Hfree. right; left; reflexivity.
Qed.

Lemma guard_empty_target d name :
  elements d = [] -> guard d (destination d name) = false.
Proof.
  intros E. unfold guard, destination.
  destruct (HasPrefix (Join [d; name]) (Clean d ++ [Separator])) eqn:G; [|reflexivity].
  apply HasPrefix_app in G as [s G]. rewrite <- app_assoc in G. cbn [app] in G.
  rewrite (Clean_render d), E in G.
  destruct d as [|c d].
  - cbn [Join] in G. destruct name as [|n name]; [discriminate|].
    cbn [join] in G. now apply Clean_not_under_empty in G.
  - cbn [Join] in G. now apply Clean_not_under_empty in G.
Qed.

Lemma zip_loop_all_rejected d bn files : forall bp,
  (forall name, guard d (destination d name) = false) ->
  zip_loop d bn bp files = ret bp.
Proof.
  induction files as [|[file os] files IH]; intros bp H; [reflexivity|].
  cbn [zip_loop]. rewrite zip_entry_skip by apply H. rewrite bind_ret_l. now apply IH.
Qed.

Lemma tar_loop_all_rejected d headers : forall bp,
  (forall name, guard d (destination d name) = false) ->
  tar_loop d bp headers = ret bp.
Proof.
  induction headers as [|[header os] headers IH]; intros bp H; [reflexivity|].
  cbn [tar_loop]. rewrite tar_entry_skip by apply H. rewrite bind_ret_l. now apply IH.
Qed.

(** X3.  A target directory without a name of its own, one that cleans to
    the root [/] or to the working directory [.], makes the guard reject
    every entry: the prefix compared against is [//] resp. [./], which no
    cleaned path begins with.  Both routines then touch nothing and end
    with the binary-not-found error, whatever the archive holds. *)
Theorem nameless_target_rejects_every_entry :
  forall (tempDir binaryName : t),
    elements tempDir = [] ->
    (forall name, guard tempDir (destination tempDir name) = false) /\
    (forall files,
        extractZip (Some files) tempDir binaryName
        = (inl (ErrZipBinaryNotFound binaryName), [])) /\
    (forall headers,
        extractTarGz (TarStream headers true) tempDir = (inl ErrTarBinaryNotFound, [])).
Proof.
  intros tempDir binaryName E.
  assert (forall name, guard tempDir (destination tempDir name) = false) as G
    by (intros name; now apply guard_empty_target).
  split; [exact G|]. split.
  - intros files. unfold extractZip. now rewrite zip_loop_all_rejected.
  - intros headers. unfold extractTarGz. now rewrite tar_loop_all_rejected.
Qed.

Lemma nameless_target_rejects_every_entry_witness :
  elements (lit "/") = [] /\
  extractZip (Some (Samples.served [Samples.zip_regular "ollama" "ELF"]))
    (lit "/") (lit "ollama")
  = (inl (ErrZipBinaryNotFound (lit "ollama")), []).
Proof.
  split; [reflexivity|].
  apply (proj1 (proj2 (@nameless_target_rejects_every_entry (lit "/") (lit "ollama")
                         eq_refl))).
Defined.







(** X5.  A read error of the tar stream fails [extractTarGz] even when
    the binary has been written: the routine never returns a path from a
    stream that does not reach its end, the calls made up to the error
    are those of the same headers read to the end, and with every call
    succeeding the error is the read error. *)
Theorem tar_read_error_fails_the_extraction :
  forall (tempDir : t) (headers : list (tar_header * os_answers)),
    (exists err, result (extractTarGz (TarStream headers false) tempDir) = inl err) /\
    events (extractTarGz (TarStream headers false) tempDir)
    = events (extractTarGz (TarStream headers true) tempDir) /\
    (calls_succeed headers ->
     result (extractTarGz (TarStream headers false) tempDir) = inl ErrTarRead).
Proof.
  intros tempDir headers. split; [|split].
  - unfold extractTarGz.
    destruct (tar_loop tempDir [] headers) as [[e|p] tr]; cbn [bind check fail result fst];
      eauto.
  - now rewrite !extractTarGz_events.
  - intros Hok. destruct (tar_loop_ok tempDir [] Hok) as (tr & E & _).
    unfold extractTarGz. rewrite E. reflexivity.
Qed.

Lemma tar_read_error_fails_the_extraction_witness :
  let headers := Samples.served [Samples.tar_regular "bin/ollama" "ELF"] in
  calls_succeed headers /\
  result (extractTarGz (TarStream headers true) (scratch Samples.home))
  = inr (lit "/home/user/ollama-extract/bin/ollama") /\
  result (extractTarGz (TarStream headers false) (scratch Samples.home)) = inl ErrTarRead.
Proof.
  intros headers.
  assert (calls_succeed headers) as Hok by (repeat constructor).
  split; [exact Hok|]. split; [reflexivity|].
  exact (proj2 (proj2 (@tar_read_error_fails_the_extraction (scratch Samples.home) headers))
           Hok).
Defined.

(** ** The platform resolver and the paths of the installer *)

(** X6.  Whatever the platform identifier and the version string (be it
    empty, or with separators or percent signs in it), the download URL is
    the release download address, the version, a separator and the
    platform's archive name, the version substituted once and as it is;
    and the archive named by the URL has the extension of the format
    [extractAndInstall] will take: [.zip] exactly for the platforms
    extracted with the zip routine, [.tgz] for the others. *)
Theorem download_url_names_the_platform_archive :
  forall (goos version : t),
    let config := getPlatformConfig goos in
    let url := getDownloadURL goos version in
    url = lit "https://github.com/ollama/ollama/releases/download/"
          ++ version ++ Separator :: Base (downloadURLTemplate config) /\
    (HasSuffix url (lit ".zip") = true <-> formatOf config = Zip) /\
    (HasSuffix url (lit ".tgz") = true <-> formatOf config = TarGz).
Proof.
  intros goos version config url.
  assert (url = lit "https://github.com/ollama/ollama/releases/download/"
                ++ version ++ Separator :: Base (downloadURLTemplate config)) as E.
  { unfold url, config, getDownloadURL, getPlatformConfig.
    destruct (eqs goos (lit "windows")); [reflexivity|].
    destruct (eqs goos (lit "linux")); [reflexivity|].
    destruct (eqs goos (lit "darwin")); reflexivity. }
  split; [exact E|].
  rewrite E. unfold HasSuffix. rewrite !rev_app_distr.
  unfold config, getPlatformConfig.
  destruct (eqs goos (lit "windows")); [split; split; try reflexivity; discriminate|].
  destruct (eqs goos (lit "linux")); [split; split; try reflexivity; discriminate|].
  destruct (eqs goos (lit "darwin")); split; split; try reflexivity; discriminate.
Qed.

(** The elements of a path joined from a directory and names. *)
Lemma elements_Join d names :
  names <> [] -> Forall proper names -> ~ In dotdot names ->
  elements (Join (d :: names)) = elements d ++ names /\
  isRooted (Join (d :: names)) = isRooted d.
Proof.
  intros Hne HF Hdd.
  destruct names as [|n ns]; [congruence|].
  destruct d as [|c d].
  - inversion HF as [|? ? (Hn & _) _]; subst.
    destruct n as [|c n]; [congruence|]. cbn [Join].
    rewrite elements_Clean, isRooted_Clean. split.
    + unfold elements. rewrite isRooted_join by exact HF.
      rewrite split_join, fold_names, app_nil_r, rev_involutive;
        auto using proper_free; discriminate.
    + now apply isRooted_join.
  - cbn [Join]. rewrite elements_Clean, isRooted_Clean.
    change (join ((c :: d) :: n :: ns)) with ((c :: d) ++ Separator :: join (n :: ns)).
    split; [|now apply isRooted_app].
    unfold elements. rewrite isRooted_app by discriminate.
    rewrite split_app, fold_left_app, split_join, fold_names, rev_app_distr,
      rev_involutive; auto using proper_free; discriminate.
Qed.

Lemma within_Join d names :
  names <> [] -> Forall proper names -> ~ In dotdot names ->
  within d (Join (d :: names)).
Proof.
  intros Hne HF Hdd. destruct (@elements_Join d names Hne HF Hdd) as [E R].
  split; [exact R|]. exists names. split; assumption.
Qed.

Lemma within_trans a b c : within a b -> within b c -> within a c.
Proof.
  intros (R1 & r1 & H1 & E1) (R2 & r2 & H2 & E2).
  split; [congruence|]. exists (r1 ++ r2). split.
  - rewrite in_app_iff. tauto.
  - now rewrite E2, E1, app_assoc.
Qed.

Lemma binaryName_proper goos :
  proper (binaryName (getPlatformConfig goos)) /\
  binaryName (getPlatformConfig goos) <> dotdot.
Proof.
  unfold getPlatformConfig.
  destruct (eqs goos (lit "windows")); [|destruct (eqs goos (lit "linux"));
                                         [|destruct (eqs goos (lit "darwin"))]];
    (split; [repeat split; try discriminate; vm_compute; intuition discriminate
            |discriminate]).
Qed.

Lemma tempFileName_proper goos :
  proper (tempFileName (getPlatformConfig goos)) /\
  tempFileName (getPlatformConfig goos) <> dotdot.
Proof.
  unfold getPlatformConfig.
  destruct (eqs goos (lit "windows")); [|destruct (eqs goos (lit "linux"));
                                         [|destruct (eqs goos (lit "darwin"))]];
    (split; [repeat split; try discriminate; vm_compute; intuition discriminate
            |discriminate]).
Qed.

Lemma binDir_elements h homeDir :
  exists names,
    names <> [] /\ Forall proper names /\ ~ In dotdot names /\
    binDirOf h homeDir = Join (homeDir :: names) /\
    names ++ [binaryName (getPlatformConfig (GOOS h))]
    = tl (elements (installPath (getPlatformConfig (GOOS h)))).
Proof.
  unfold binDirOf, getPlatformConfig.
  destruct (eqs (GOOS h) (lit "windows")).
  - exists [lit "AppData"; lit "Local"; lit "Programs"; lit "Ollama"].
    split; [discriminate|]. split; [|split; [|split; reflexivity]].
    + repeat constructor; try discriminate; vm_compute; intuition discriminate.
    + vm_compute. intuition discriminate.
  - exists [lit "bin"].
    split; [discriminate|]. split; [|split; [|split]].
    + repeat constructor; try discriminate; vm_compute; intuition discriminate.
    + vm_compute. intuition discriminate.
    + reflexivity.
    + destruct (eqs (GOOS h) (lit "linux")); [reflexivity|].
      destruct (eqs (GOOS h) (lit "darwin")); reflexivity.
Qed.

(** X7.  The path [installOllama] installs to is the install path of the
    platform configuration with the home directory in the place of [~]:
    its elements are those of the home directory followed by the elements
    the configured install path has after [~]; it starts where the home
    directory starts, and its base name is the binary name. *)
Theorem final_path_is_the_configured_install_path :
  forall (h : host) (homeDir : t),
    let config := getPlatformConfig (GOOS h) in
    hd [] (elements (installPath config)) = lit "~" /\
    elements (finalPathOf h homeDir)
    = elements homeDir ++ tl (elements (installPath config)) /\
    isRooted (finalPathOf h homeDir) = isRooted homeDir /\
    Base (finalPathOf h homeDir) = binaryName config.
Proof.
  intros h homeDir config.
  destruct (binDir_elements h homeDir) as (names & Hne & HF & Hdd & Eb & Ei).
  destruct (binaryName_proper (GOOS h)) as [Hp Hn]. fold config in Hp, Hn, Ei.
  destruct (@elements_Join homeDir names Hne HF Hdd) as [E1 R1]. rewrite <- Eb in E1, R1.
  assert ([binaryName config] <> []) as Hne' by discriminate.
  assert (Forall proper [binaryName config]) as HF'
    by (constructor; [exact Hp|constructor]).
  assert (~ In dotdot [binaryName config]) as Hdd' by (intros [H|[]]; congruence).
  destruct (@elements_Join (binDirOf h homeDir) _ Hne' HF' Hdd') as [E2 R2].
  fold config in E2, R2. unfold finalPathOf. fold config.
  split; [|split; [|split]].
  - unfold config, getPlatformConfig.
    destruct (eqs (GOOS h) (lit "windows")); [reflexivity|].
    destruct (eqs (GOOS h) (lit "linux")); [reflexivity|].
    destruct (eqs (GOOS h) (lit "darwin")); reflexivity.
  - now rewrite E2, E1, <- app_assoc, Ei.
  - congruence.
  - cbn [Join].
    destruct (binDirOf h homeDir) as [|c b] eqn:B.
    + exfalso. change (elements []) with (@nil t) in E1.
      destruct (elements homeDir), names; try congruence; discriminate E1.
    + cbn [Join] in E2. rewrite elements_Clean in E2.
      rewrite Clean_render, E2, render_snoc.
      * apply Base_last; apply Hp.
      * rewrite E1. destruct (elements homeDir), names; try congruence; discriminate.
Qed.

(** ** The orchestrator *)

Lemma wrap_inr {A} (w : Run.error -> Run.error) (m : M A) a tr :
  wrap w m = (inr a, tr) -> m = (inr a, tr).
Proof. destruct m as [[e|x] t0]; simpl; congruence. Qed.

Lemma events_wrap {A} (w : Run.error -> Run.error) (m : M A) :
  events (wrap w m) = events m.
Proof. now destruct m as [[e|x] t0]. Qed.

Lemma events_defer {A} cleanup (m : M A) :
  events (defer cleanup m) = events m ++ cleanup.
Proof. now destruct m as [r t0]. Qed.

Lemma result_defer {A} cleanup (m : M A) : result (defer cleanup m) = result m.
Proof. now destruct m as [r t0]. Qed.

(** A path an extraction returns lies inside a named target directory. *)
Lemma extraction_returns_inside h tempDir config src tr :
  named tempDir ->
  (if HasSuffix (tempFileName config) (lit ".zip")
   then extractZip (zipReader h) tempDir (binaryName config)
   else extractTarGz (tarSource h) tempDir) = (inr src, tr) ->
  inside tempDir src /\ Forall (stays_within tempDir) tr.
Proof.
  intros Hd H. split.
  - destruct (HasSuffix (tempFileName config) (lit ".zip")).
    + destruct (zipReader h) as [files|]; [|discriminate].
      apply extractZip_returns in H as (before & file & os & after & _ & R & _ & ->).
      apply zipRecorded_candidate in R; [apply R|exact Hd].
    + destruct (tarSource h) as [| |headers at_eof]; try discriminate.
      apply extractTarGz_returns in H as (before & header & os & after & _ & R & _ & ->).
      apply tarRecorded_candidate in R; [apply R|exact Hd].
  - destruct (HasSuffix (tempFileName config) (lit ".zip")).
    + pose proof (extractZip_within (zipReader h) (binaryName config) Hd) as W.
      now rewrite H in W.
    + pose proof (extractTarGz_within (tarSource h) Hd) as W. now rewrite H in W.
Qed.

(** The shape of a run of [extractAndInstall] that ends well. *)
Lemma extractAndInstall_inr h archivePath tempDir finalPath config tr :
  named tempDir ->
  extractAndInstall h archivePath tempDir finalPath config = (inr tt, tr) ->
  exists extraction src,
    tr = RemoveAll tempDir :: MkdirAll tempDir executableMode :: extraction
         ++ [Create finalPath; CopyFrom src finalPath; Chmod finalPath executableMode] /\
    inside tempDir src /\ Forall (stays_within tempDir) extraction.
Proof.
  intros Hd. unfold extractAndInstall.
  destruct (removeall_ok h); [|discriminate].
  destruct (tempdir_ok h); [|discriminate].
  cbn [bind emit check ret app].
  destruct (wrap ErrExtraction _) as [[e|src] trx] eqn:X; [discriminate|].
  apply wrap_inr in X. apply extraction_returns_inside in X as [I W]; [|exact Hd].
  unfold copyFile.
  destruct (copy_open_ok h), (copy_create_ok h), (copy_copy_ok h), (chmod_ok h);
    cbn [bind emit check ret fail wrap app]; try discriminate.
  intros H. injection H as <-.
  exists trx, src. auto.
Qed.



(** A run of [installOllama] that ends well, taken apart. *)
Lemma installOllama_inr h url fs tr :
  installOllama h url = (inr fs, tr) ->
  exists homeDir download extraction src,
    UserHomeDir h = Some homeDir /\
    downloadFile h url (tempFileOf h homeDir) = (inr tt, download) /\
    inside (scratch homeDir) src /\
    Forall (stays_within (scratch homeDir)) extraction /\
    fs = snd (pathStage h homeDir) /\
    tr = download
         ++ MkdirAll (binDirOf h homeDir) executableMode
         :: RemoveAll (scratch homeDir)
         :: MkdirAll (scratch homeDir) executableMode
         :: extraction
         ++ [Create (finalPathOf h homeDir); CopyFrom src (finalPathOf h homeDir);
             Chmod (finalPathOf h homeDir) executableMode]
         ++ fst (pathStage h homeDir)
         ++ [Installed (finalPathOf h homeDir); RemoveAll (scratch homeDir);
             Remove (tempFileOf h homeDir)].
Proof.
  unfold installOllama, tempFileOf, finalPathOf, binDirOf, scratch.
  destruct (UserHomeDir h) as [homeDir|] eqn:Hh; [|discriminate].
  destruct (downloadFile h url _) as [[e|[]] tr1] eqn:D; [discriminate|].
  destruct (bindir_ok h); [|discriminate].
  destruct (extractAndInstall h _ _ _ _) as [[e|[]] tr2] eqn:X; [discriminate|].
  apply extractAndInstall_inr in X as (extraction & src & -> & I & W);
    [|apply named_scratch].
  destruct (pathStage h homeDir) as [warnings fs0] eqn:P.
  cbn [negb wrap bind emit check ret defer fst snd].
  intros H. injection H as <- <-.
  exists homeDir, tr1, extraction, src. rewrite P. cbn [fst snd].
  split; [reflexivity|]. split; [exact D|]. split; [exact I|].
  split; [exact W|]. split; [reflexivity|].
  repeat (rewrite <- ?app_assoc, <- ?app_comm_cons; cbn [app]). reflexivity.
Qed.

(** X9.  [main] exits with status 0 only after a complete installation:
    the version was fetched, the home directory is known, the archive was
    downloaded, a binary recorded inside the scratch directory was copied
    to the final path and made executable (mode 0755), the success
    message was printed, and the scratch directory and the temporary
    archive were removed, in this order. *)
Theorem exit_status_zero_means_installed :
  forall h : host,
    fst (main h) = 0%Z ->
    exists version homeDir download extraction src,
      getLatestOllamaVersion h = inr version /\
      UserHomeDir h = Some homeDir /\
      downloadFile h (getDownloadURL (GOOS h) version) (tempFileOf h homeDir)
      = (inr tt, download) /\
      inside (scratch homeDir) src /\
      snd (main h)
      = download
        ++ MkdirAll (binDirOf h homeDir) executableMode
        :: RemoveAll (scratch homeDir)
        :: MkdirAll (scratch homeDir) executableMode
        :: extraction
        ++ [Create (finalPathOf h homeDir); CopyFrom src (finalPathOf h homeDir);
            Chmod (finalPathOf h homeDir) executableMode]
        ++ fst (pathStage h homeDir)
        ++ [Installed (finalPathOf h homeDir); RemoveAll (scratch homeDir);
            Remove (tempFileOf h homeDir)].
Proof.
  intros h. unfold main.
  destruct (getLatestOllamaVersion h) as [e|version]; [discriminate|].
  destruct (installOllama h _) as [[e|fs] tr] eqn:I; [discriminate|].
  intros _.
  apply installOllama_inr in I as (homeDir & download & extraction & src
                                   & Hh & D & In & _ & _ & ->).
  exists version, homeDir, download, extraction, src. auto.
Qed.

Lemma exit_status_zero_means_installed_witness :
  let h := Samples.linux_host (Responds 200 (lit "archive")) true in
  fst (main h) = 0%Z /\
  exists extraction src,
    inside (scratch Samples.home) src /\
    snd (main h)
    = [Create (lit "/home/user/ollama.tgz");
       CopyTo (lit "/home/user/ollama.tgz") (lit "archive")]
      ++ MkdirAll (lit "/home/user/bin") executableMode
      :: RemoveAll (scratch Samples.home)
      :: MkdirAll (scratch Samples.home) executableMode
      :: extraction
      ++ [Create (lit "/home/user/bin/ollama");
          CopyFrom src (lit "/home/user/bin/ollama");
          Chmod (lit "/home/user/bin/ollama") executableMode]
      ++ []
      ++ [Installed (lit "/home/user/bin/ollama"); RemoveAll (scratch Samples.home);
          Remove (lit "/home/user/ollama.tgz")].
Proof.
  intros h. split; [reflexivity|].
  destruct (@exit_status_zero_means_installed h eq_refl)
    as (version & homeDir & download & extraction & src & V & Hh & D & I & E).
  injection Hh as <-. injection D as <-.
  exists extraction, src. split; [exact I|exact E].
Defined.

(** X10.  [installOllama] cleans up on every way out once the home
    directory is known: the last thing it does is remove the temporary
    archive, and when the download had succeeded the scratch directory is
    removed just before, whether the later stages succeed or fail.  With
    the home directory unknown it fails before doing anything. *)
Theorem cleanup_runs_on_every_exit :
  forall (h : host) (url : t),
    (UserHomeDir h = None -> installOllama h url = (inl ErrHomeDir, [])) /\
    (forall homeDir,
        UserHomeDir h = Some homeDir ->
        (exists before,
            events (installOllama h url) = before ++ [Remove (tempFileOf h homeDir)]) /\
        (result (downloadFile h url (tempFileOf h homeDir)) = inr tt ->
         exists before,
           events (installOllama h url)
           = before ++ [RemoveAll (scratch homeDir); Remove (tempFileOf h homeDir)])).
Proof.
  intros h url. split.
  - intros Hh. unfold installOllama. now rewrite Hh.
  - intros homeDir Hh. unfold installOllama, tempFileOf, scratch. rewrite Hh.
    rewrite events_defer. split; [eexists; reflexivity|].
    destruct (downloadFile h url _) as [[e|[]] tr1]; [discriminate|]. intros _.
    cbn [wrap bind]. destruct (defer [RemoveAll _] _) as [r tr2] eqn:E.
    pose proof (f_equal (@events _) E) as Ev. rewrite events_defer in Ev.
    cbn [events snd] in Ev |- *. rewrite <- Ev.
    eexists. rewrite !app_assoc. rewrite <- (app_assoc _ [_] [_]). reflexivity.
Qed.

Lemma cleanup_runs_on_every_exit_witness :
  let h := Samples.linux_host (Responds 200 (lit "archive")) true in
  let stuck := {| GOOS := GOOS h; UserHomeDir := UserHomeDir h; api := api h;
                  decode := decode h; download := download h;
                  download_create_ok := true; download_copy_ok := true;
                  bindir_ok := false; removeall_ok := true; tempdir_ok := true;
                  zipReader := None; tarSource := tarSource h;
                  copy_open_ok := true; copy_create_ok := true; copy_copy_ok := true;
                  chmod_ok := true; shell := shell h; PATH := PATH h;
                  powershell_ok := false |} in
  UserHomeDir stuck = Some Samples.home /\
  result (installOllama stuck (lit "url")) = inl ErrCreateBinDir /\
  exists before,
    events (installOllama stuck (lit "url"))
    = before ++ [RemoveAll (lit "/home/user/ollama-extract");
                 Remove (lit "/home/user/ollama.tgz")].
Proof.
  intros h stuck. split; [reflexivity|]. split; [reflexivity|].
  exact (proj2 (proj2 (@cleanup_runs_on_every_exit stuck (lit "url"))
                  Samples.home eq_refl) eq_refl).
Defined.

Lemma stays_within_confined home d ev :
  within home d -> stays_within d ev -> confined home ev.
Proof.
  intros Hd H. unfold confined.
  destruct ev; cbn [written stays_within] in *; try contradiction;
    (apply Forall_cons; [eapply within_trans; eauto|apply Forall_nil]).
Qed.

Lemma confined_one home p ev :
  written ev = [p] -> within home p -> confined home ev.
Proof.
  intros E W. unfold confined. rewrite E.
  apply Forall_cons; [exact W|apply Forall_nil].
Qed.

Ltac confine W :=
  repeat (apply Forall_cons;
          [first [apply Forall_nil | apply Forall_cons; [exact W|apply Forall_nil]]|]);
  try apply Forall_nil.

Lemma tempDirName_proper : proper tempDirName /\ tempDirName <> dotdot.
Proof.
  split; [|discriminate]. repeat split; try discriminate.
  vm_compute. intuition discriminate.
Qed.

Lemma within_home_paths h homeDir :
  within homeDir (tempFileOf h homeDir) /\
  within homeDir (scratch homeDir) /\
  within homeDir (binDirOf h homeDir) /\
  within homeDir (finalPathOf h homeDir).
Proof.
  destruct (tempFileName_proper (GOOS h)) as [Pt Nt].
  destruct tempDirName_proper as [Pd Nd].
  destruct (binaryName_proper (GOOS h)) as [Pb Nb].
  destruct (binDir_elements h homeDir) as (names & Hne & HF & Hdd & Eb & _).
  assert (within homeDir (binDirOf h homeDir)) as Wb
    by (rewrite Eb; now apply within_Join).
  split; [|split; [|split]].
  - apply within_Join; [discriminate|constructor; [assumption|constructor]|].
    intros [H|[]]; congruence.
  - apply within_Join; [discriminate|constructor; [assumption|constructor]|].
    intros [H|[]]; congruence.
  - exact Wb.
  - apply within_trans with (b := binDirOf h homeDir); [exact Wb|].
    apply within_Join; [discriminate|constructor; [assumption|constructor]|].
    intros [H|[]]; congruence.
Qed.

(** Every path a run of [installOllama] creates, writes, changes the mode
    of or removes is the home directory or lies inside it. *)
Lemma installOllama_events_confined h url homeDir :
  UserHomeDir h = Some homeDir ->
  Forall (confined homeDir) (events (installOllama h url)).
Proof.
  intros Hh.
  destruct (within_home_paths h homeDir) as (Wt & Ws & Wb & Wf).
  unfold tempFileOf, scratch, binDirOf, finalPathOf in *.
  unfold installOllama. rewrite Hh.
  rewrite events_defer. apply Forall_app. split;
    [|confine Wt].
  apply events_bind.
  { rewrite events_wrap. unfold downloadFile.
    destruct (download h) as [| |status body]; try constructor.
    destruct (negb (Z.eqb status StatusOK)); [constructor|].
    destruct (download_create_ok h), (download_copy_ok h);
      cbn [bind emit check ret fail app events snd];
      confine Wt. }
  intros _. rewrite events_defer. apply Forall_app. split;
    [|confine Ws].
  apply events_bind; [confine Wb|]. intros _.
  apply events_bind; [apply events_check|]. intros _.
  apply events_bind.
  { rewrite events_wrap. unfold extractAndInstall.
    apply events_bind; [confine Ws|]. intros _.
    apply events_bind; [apply events_check|]. intros _.
    apply events_bind; [confine Ws|]. intros _.
    apply events_bind; [apply events_check|]. intros _.
    apply events_bind.
    { rewrite events_wrap.
      assert (forall tr, Forall (stays_within (Join [homeDir; tempDirName])) tr ->
                         Forall (confined homeDir) tr) as Lift.
      { intros tr. apply Forall_impl. intros ev. now apply stays_within_confined. }
      apply Lift.
      destruct (HasSuffix _ _);
        [apply extractZip_within|apply extractTarGz_within]; apply named_scratch. }
    intros src.
    apply events_bind.
    { rewrite events_wrap. unfold copyFile.
      destruct (copy_open_ok h), (copy_create_ok h), (copy_copy_ok h);
        cbn [bind emit check ret fail app events snd];
        confine Wf. }
    intros _.
    apply events_bind; [confine Wf|]. intros _.
    apply events_check. }
  intros _. destruct (pathStage h homeDir) as [warnings fs] eqn:P.
  cbn [events snd]. apply Forall_app. split; [|confine Wt].
  unfold pathStage in P.
  destruct (negb _); [|injection P as <- _; constructor].
  destruct (updatePath _ _ _ _ _) as [[e|u] fs0]; injection P as <- _;
    confine Wt.
Qed.


(** ** The PATH updater *)

Lemma raw_lines_first s : forall l ls,
  raw_lines s = l :: ls -> exists rest, s = l ++ rest.
Proof.
  induction s as [|c s IH]; intros l ls H; [discriminate|].
  cbn [raw_lines] in H. destruct (Ascii.eqb c newline).
  - injection H as <- _. now exists (c :: s).
  - destruct (raw_lines s) as [|l0 ls0].
    + injection H as <- _. now exists s.
    + injection H as <- _. destruct (IH l0 ls0 eq_refl) as [rest ->]. now exists rest.
Qed.

(** A line of a text is a piece of the text. *)
Lemma raw_lines_in s : forall l,
  In l (raw_lines s) -> exists a b, s = a ++ l ++ b.
Proof.
  induction s as [|c s IH]; intros l H; [contradiction|].
  cbn [raw_lines] in H. destruct (Ascii.eqb c newline).
  - destruct H as [<-|H].
    + now exists [], (c :: s).
    + destruct (IH l H) as (a & b & ->). now exists (c :: a), b.
  - destruct (raw_lines s) as [|l0 ls] eqn:R.
    + destruct H as [<-|[]]. now exists [], s.
    + destruct H as [<-|H].
      * destruct (raw_lines_first s _ _ R) as [rest ->]. now exists [], rest.
      * destruct (IH l (or_intror H)) as (a & b & ->). now exists (c :: a), b.
Qed.

Lemma dropCR_prefix l : exists rest, l = dropCR l ++ rest.
Proof.
  unfold dropCR. destruct (rev l) as [|c front] eqn:R; [exists []; now rewrite app_nil_r|].
  destruct (Ascii.eqb c carriage_return); [|exists []; now rewrite app_nil_r].
  exists [c]. apply (f_equal (@rev ascii)) in R. now rewrite rev_involutive in R.
Qed.

Lemma scan_in lines : forall x,
  In x (scan lines) -> exists l, In l lines /\ x = dropCR l.
Proof.
  induction lines as [|l ls IH]; intros x H; [contradiction|].
  cbn [scan] in H. destruct (MaxScanTokenSize <=? length l); [contradiction|].
  destruct H as [<-|H].
  - exists l. split; [left|]; reflexivity.
  - destruct (IH x H) as (l' & Hin & ->). exists l'. split; [right|]; auto.
Qed.

(** What [pathAlreadyExists] reports is in the file. *)
Lemma pathAlreadyExists_sound fs filePath pat :
  pathAlreadyExists fs filePath pat = true ->
  exists text,
    content fs filePath = Some text /\ read_ok fs filePath = true /\
    Contains text pat = true.
Proof.
  unfold pathAlreadyExists.
  destruct (content fs filePath) as [text|]; [|discriminate].
  destruct (read_ok fs filePath); [|discriminate].
  intros H. exists text. split; [reflexivity|]. split; [reflexivity|].
  apply existsb_exists in H as (x & Hin & C).
  apply scan_in in Hin as (l & Hin & ->).
  apply raw_lines_in in Hin as (a & b & ->).
  destruct (dropCR_prefix l) as [rest E].
  apply Contains_app in C as (a' & b' & C). apply Contains_app.
  exists (a ++ a'), (b' ++ rest ++ b).
  rewrite E, C, <- !app_assoc. reflexivity.
Qed.

(** X12.  [pathAlreadyExists] never reports an export line that is not
    in the file: when it answers true, the file exists, could be opened
    and contains the line.  It answers false for a file that is missing
    or cannot be opened.  And for a file that can be opened and whose
    lines all fit the scanner's buffer it is exact: it answers true when,
    and only when, the content contains the export line. *)
Theorem export_line_detection_is_exact :
  forall (fs : shell_fs) (filePath : t),
    (pathAlreadyExists fs filePath pathExport = true ->
     exists text,
       content fs filePath = Some text /\ read_ok fs filePath = true /\
       Contains text pathExport = true) /\
    (content fs filePath = None \/ read_ok fs filePath = false ->
     pathAlreadyExists fs filePath pathExport = false) /\
    (forall text,
        content fs filePath = Some text -> read_ok fs filePath = true ->
        lines_fit text ->
        (pathAlreadyExists fs filePath pathExport = true <->
         Contains text pathExport = true)).
Proof.
  intros fs filePath. split; [apply pathAlreadyExists_sound|]. split.
  - unfold pathAlreadyExists. intros [-> | H]; [reflexivity|].
    rewrite H. now destruct (content fs filePath).
  - intros text Hc Hr Hfit. split.
    + intros H. apply pathAlreadyExists_sound in H as (text' & Hc' & _ & C).
      congruence.
    + now apply pathAlreadyExists_detects.
Qed.

Lemma export_line_detection_is_exact_witness :
  let text := lit "# shell" ++ carriage_return :: newline :: lit "  " ++ pathExport
              ++ lit " # added" ++ [carriage_return; newline] in
  let fs := Samples.shell_with [(Samples.bash_profile, text)] true in
  content fs Samples.bash_profile = Some text /\
  lines_fit text /\
  Contains text pathExport = true /\
  pathAlreadyExists fs Samples.bash_profile pathExport = true.
Proof.
  intros text fs.
  assert (lines_fit text) as Hfit.
  { unfold lines_fit.
    repeat (apply Forall_cons; [apply Nat.ltb_lt; vm_compute; reflexivity|]).
    apply Forall_nil. }
  assert (Contains text pathExport = true) as C by reflexivity.
  split; [reflexivity|]. split; [exact Hfit|]. split; [exact C|].
  exact (proj2 (proj2 (proj2 (@export_line_detection_is_exact fs Samples.bash_profile))
                  text eq_refl eq_refl Hfit) C).
Defined.

Lemma lines_fit_check text :
  forallb (fun line => length line <? MaxScanTokenSize) (raw_lines text) = true ->
  lines_fit text.
Proof.
  intros H. unfold lines_fit. apply Forall_forall. intros line Hin.
  rewrite forallb_forall in H. apply Nat.ltb_lt. now apply H.
Qed.

Ltac lines_fit_concrete := apply lines_fit_check; vm_compute; reflexivity.

(** X13.  When one of the candidate files already contains the export
    line, can be read and has lines that fit the scanner's buffer,
    [updateUnixPath] returns success and leaves every file as it is; no
    candidate is opened for writing. *)
Theorem updater_leaves_files_alone_when_line_is_present :
  forall (fs : shell_fs) (homeDir configFile text : t),
    In configFile configFiles ->
    content fs (Join [homeDir; configFile]) = Some text ->
    read_ok fs (Join [homeDir; configFile]) = true ->
    lines_fit text ->
    Contains text pathExport = true ->
    updateUnixPath fs homeDir = (inr tt, fs).
Proof.
  intros fs homeDir configFile text Hin Hc Hr Hfit C.
  now apply updateUnixPath_present with (configFile := configFile) (text := text).
Qed.

Lemma updater_leaves_files_alone_when_line_is_present_witness :
  let text := lit "alias ll='ls -l'" ++ newline :: pathExport ++ [newline] in
  let fs := Samples.shell_with [(lit "/home/user/.profile", text)] true in
  In (lit ".profile") configFiles /\
  lines_fit text /\
  Contains text pathExport = true /\
  updateUnixPath fs Samples.home = (inr tt, fs).
Proof.
  intros text fs.
  assert (In (lit ".profile") configFiles) as Hin by (simpl; tauto).
  assert (lines_fit text) as Hfit by lines_fit_concrete.
  assert (Contains text pathExport = true) as C by reflexivity.
  split; [exact Hin|]. split; [exact Hfit|]. split; [exact C|].
  exact (@updater_leaves_files_alone_when_line_is_present fs Samples.home
           (lit ".profile") text Hin eq_refl eq_refl Hfit C).
Defined.

(** X14.  [updateUnixPath] is idempotent when the scanner can read the
    files through: after a run that succeeded, if the candidate files that
    exist can be read and have lines that fit the scanner's buffer, a
    second run succeeds too and changes nothing. *)
Theorem second_run_changes_nothing :
  forall (fs fs1 : shell_fs) (homeDir : t),
    updateUnixPath fs homeDir = (inr tt, fs1) ->
    (forall configFile text,
        In configFile configFiles ->
        content fs1 (Join [homeDir; configFile]) = Some text ->
        read_ok fs1 (Join [homeDir; configFile]) = true /\ lines_fit text) ->
    updateUnixPath fs1 homeDir = (inr tt, fs1).
Proof.
  intros fs fs1 homeDir H Hfit. now apply updateUnixPath_idempotent with (fs := fs).
Qed.

(** The candidates of a concrete file system, one by one. *)
Lemma for_each_candidate (P : t -> Prop) :
  P (lit ".zshrc") -> P (lit ".bash_profile") -> P (lit ".bashrc") -> P (lit ".profile") ->
  forall configFile, In configFile configFiles -> P configFile.
Proof.
  intros H1 H2 H3 H4 f [<-|[<-|[<-|[<-|[]]]]]; assumption.
Qed.

Lemma second_run_changes_nothing_witness :
  let fs := Samples.shell_with [(lit "/home/user/.bashrc", lit "alias ll='ls -l'")] true in
  let fs1 := snd (updateUnixPath fs Samples.home) in
  updateUnixPath fs Samples.home = (inr tt, fs1) /\
  content fs1 (lit "/home/user/.bash_profile") = Some addition /\
  updateUnixPath fs1 Samples.home = (inr tt, fs1).
Proof.
  intros fs fs1.
  assert (fst (updateUnixPath fs Samples.home) = inr tt) as H0 by (vm_compute; reflexivity).
  assert (updateUnixPath fs Samples.home = (inr tt, fs1)) as H.
  { rewrite (surjective_pairing (updateUnixPath fs Samples.home)), H0. reflexivity. }
  split; [exact H|]. split; [vm_compute; reflexivity|].
  apply (@second_run_changes_nothing fs fs1 Samples.home H).
  intros configFile text Hin. revert text. revert configFile Hin.
  apply (for_each_candidate
           (fun f => forall text,
                content fs1 (Join [Samples.home; f]) = Some text ->
                read_ok fs1 (Join [Samples.home; f]) = true /\ lines_fit text)).
  - intros text E. vm_compute in E. discriminate E.
  - intros text E. vm_compute in E. injection E as <-.
    split; [vm_compute; reflexivity|lines_fit_concrete].
  - intros text E. vm_compute in E. injection E as <-.
    split; [vm_compute; reflexivity|lines_fit_concrete].
  - intros text E. vm_compute in E. discriminate E.
Defined.

(** With no write breaking off, the second loop of [updateUnixPath]
    appends to the first candidate in order that it does not pass over. *)
Lemma appendFirst_first homeDir candidates : forall fs fs1,
  writes_complete fs ->
  appendFirst fs homeDir candidates = (inr tt, fs1) ->
  exists before configFile after,
    candidates = before ++ configFile :: after /\
    Forall (passed_over fs homeDir) before /\
    append_answers fs (Join [homeDir; configFile]) = AppendOk /\
    fs1 = write fs (Join [homeDir; configFile])
            (existing fs (Join [homeDir; configFile]) ++ addition).
Proof.
  induction candidates as [|f rest IH]; intros fs fs1 Hw H; [discriminate|].
  cbn [appendFirst] in H.
  destruct (eqs f (lit ".zshrc") && negb (fileExists fs (Join [homeDir; f]))) eqn:S.
  - destruct (IH _ _ Hw H) as (before & g & after & -> & HF & A & E).
    exists (f :: before), g, after. split; [reflexivity|]. split; [|auto].
    constructor; [|exact HF]. left.
    apply andb_prop in S as [S1 S2]. apply eqs_eq in S1.
    apply negb_true_iff in S2. auto.
  - unfold appendToFile in H.
    destruct (append_answers fs (Join [homeDir; f])) eqn:A.
    + destruct (IH _ _ Hw H) as (before & g & after & -> & HF & A' & E).
      exists (f :: before), g, after. split; [reflexivity|]. split; [|auto].
      constructor; [|exact HF]. right. exact A.
    + now apply Hw in A.
    + injection H as <-. exists [], f, rest. auto.
Qed.

Lemma no_candidate_detected fs homeDir :
  (forall configFile, In configFile configFiles ->
     pathAlreadyExists fs (Join [homeDir; configFile]) pathExport = false) <->
  existsb (fun configFile =>
             pathAlreadyExists fs (Join [homeDir; configFile]) pathExport)
          configFiles = false.
Proof.
  split.
  - intros H. destruct (existsb _ configFiles) eqn:E; [|reflexivity].
    apply existsb_exists in E as (f & Hin & E). rewrite (H f Hin) in E. discriminate.
  - intros E f Hin.
    destruct (pathAlreadyExists fs (Join [homeDir; f]) pathExport) eqn:P; [|reflexivity].
    assert (existsb (fun configFile =>
                       pathAlreadyExists fs (Join [homeDir; configFile]) pathExport)
                    configFiles = true) as T
      by (apply existsb_exists; exists f; auto).
    congruence.
Qed.

(** X15.  When no candidate file is found to hold the export line and no
    write breaks off half-way, a successful [updateUnixPath] changes
    exactly one file: the first candidate, in the order [.zshrc],
    [.bash_profile], [.bashrc], [.profile], that is not passed over
    ([.zshrc] is passed over when it does not exist, any candidate when
    it cannot be opened for append).  That file, created if it was
    missing, gets the export line between two line feeds appended to what
    it held, which adds exactly one occurrence of the line; every other
    file keeps its content. *)
Theorem first_run_appends_once_to_first_candidate :
  forall (fs fs1 : shell_fs) (homeDir : t),
    writes_complete fs ->
    (forall configFile, In configFile configFiles ->
       pathAlreadyExists fs (Join [homeDir; configFile]) pathExport = false) ->
    updateUnixPath fs homeDir = (inr tt, fs1) ->
    exists before configFile after,
      let path := Join [homeDir; configFile] in
      configFiles = before ++ configFile :: after /\
      Forall (passed_over fs homeDir) before /\
      append_answers fs path = AppendOk /\
      content fs1 path = Some (existing fs path ++ newline :: pathExport ++ [newline]) /\
      (forall other, other <> path -> content fs1 other = content fs other) /\
      occurrences (existing fs1 path) pathExport
      = occurrences (existing fs path) pathExport + 1.
Proof.
  intros fs fs1 homeDir Hw Hnone H. unfold updateUnixPath in H.
  apply no_candidate_detected in Hnone. rewrite Hnone in H.
  apply appendFirst_first in H as (before & f & after & E & HF & A & ->); [|exact Hw].
  exists before, f, after. cbv zeta.
  split; [exact E|]. split; [exact HF|]. split; [exact A|].
  split; [apply content_write|]. split.
  - intros other Ho. now apply content_write_other.
  - unfold existing at 1. rewrite content_write. apply occurrences_addition.
Qed.

Lemma first_run_appends_once_to_first_candidate_witness :
  let fs := Samples.shell_with [(lit "/home/user/.bashrc", lit "alias ll='ls -l'")] true in
  let fs1 := snd (updateUnixPath fs Samples.home) in
  writes_complete fs /\
  updateUnixPath fs Samples.home = (inr tt, fs1) /\
  exists before configFile after,
    configFiles = before ++ configFile :: after /\
    Forall (passed_over fs Samples.home) before /\
    content fs1 (Join [Samples.home; configFile])
    = Some (existing fs (Join [Samples.home; configFile])
            ++ newline :: pathExport ++ [newline]).
Proof.
  intros fs fs1.
  assert (writes_complete fs) as Hw by (intros path written H; discriminate H).
  assert (fst (updateUnixPath fs Samples.home) = inr tt) as H0 by (vm_compute; reflexivity).
  assert (updateUnixPath fs Samples.home = (inr tt, fs1)) as H.
  { rewrite (surjective_pairing (updateUnixPath fs Samples.home)), H0. reflexivity. }
  split; [exact Hw|]. split; [exact H|].
  destruct (@first_run_appends_once_to_first_candidate fs fs1 Samples.home Hw) as
    (before & f & after & E & HF & _ & C & _).
  - apply (for_each_candidate
             (fun f => pathAlreadyExists fs (Join [Samples.home; f]) pathExport = false));
      vm_compute; reflexivity.
  - exact H.
  - exists before, f, after. auto.
Defined.

Lemma configFile_proper configFile :
  In configFile configFiles -> proper configFile /\ configFile <> dotdot.
Proof.
  revert configFile. apply for_each_candidate;
    (split; [split; [discriminate|split; [discriminate|]]|discriminate]);
    vm_compute; intuition discriminate.
Qed.

(** Different candidates are different files, whatever the home directory. *)
Lemma candidate_paths_differ homeDir f g :
  In f configFiles -> In g configFiles ->
  Join [homeDir; f] = Join [homeDir; g] -> f = g.
Proof.
  intros Hf Hg E.
  destruct (@configFile_proper f Hf) as [Pf Nf], (@configFile_proper g Hg) as [Pg Ng].
  assert (elements (Join [homeDir; f]) = elements homeDir ++ [f]) as Ef.
  { apply elements_Join; [discriminate|constructor; [exact Pf|constructor]|].
    intros [H|[]]; congruence. }
  assert (elements (Join [homeDir; g]) = elements homeDir ++ [g]) as Eg.
  { apply elements_Join; [discriminate|constructor; [exact Pg|constructor]|].
    intros [H|[]]; congruence. }
  rewrite E, Eg in Ef. apply app_inv_head in Ef. congruence.
Qed.

Lemma appendToFile_content_other fs filePath text other :
  other <> filePath ->
  content (snd (appendToFile fs filePath text)) other = content fs other.
Proof.
  intros H. unfold appendToFile.
  destruct (append_answers fs filePath); cbn [snd];
    [reflexivity|now apply content_write_other..].
Qed.

(** The second loop writes to candidates only. *)
Lemma appendFirst_content_other homeDir other candidates : forall fs,
  (forall configFile, In configFile candidates -> Join [homeDir; configFile] <> other) ->
  content (snd (appendFirst fs homeDir candidates)) other = content fs other.
Proof.
  induction candidates as [|f rest IH]; intros fs H; [reflexivity|].
  cbn [appendFirst].
  destruct (eqs f (lit ".zshrc") && negb (fileExists fs (Join [homeDir; f]))).
  - apply IH. intros g Hg. apply H. now right.
  - assert (other <> Join [homeDir; f]) as Ho
      by (intros ->; apply (H f); [now left|reflexivity]).
    pose proof (appendToFile_content_other fs (Join [homeDir; f]) pathExport other Ho) as C.
    destruct (appendToFile fs (Join [homeDir; f]) pathExport) as [[|] fs'];
      cbn [snd] in *; [exact C|].
    rewrite IH; [exact C|]. intros g Hg. apply H. now right.
Qed.

Lemma appendFirst_passes_over fs homeDir rest :
  fileExists fs (Join [homeDir; zshrc]) = false ->
  appendFirst fs homeDir (zshrc :: rest) = appendFirst fs homeDir rest.
Proof.
  intros H. cbn [appendFirst]. fold zshrc. rewrite H.
  replace (eqs zshrc zshrc) with true by (symmetry; apply eqs_refl).
  reflexivity.
Qed.

Lemma appendFirst_stat_fails homeDir candidates : forall fs,
  stat_fails (snd (appendFirst fs homeDir candidates)) = stat_fails fs.
Proof.
  induction candidates as [|f rest IH]; intros fs; [reflexivity|].
  cbn [appendFirst].
  destruct (eqs f (lit ".zshrc") && negb _); [apply IH|].
  unfold appendToFile. destruct (append_answers fs _); cbn [snd];
    [apply IH|rewrite IH|]; reflexivity.
Qed.

(** X16.  [updateUnixPath] never creates [.zshrc]: when the file does
    not exist before the call, it does not exist after it, whatever
    happens to the other candidates and whether the call succeeds or
    not. *)
Theorem missing_zshrc_is_never_created :
  forall (fs : shell_fs) (homeDir : t),
    fileExists fs (Join [homeDir; zshrc]) = false ->
    fileExists (snd (updateUnixPath fs homeDir)) (Join [homeDir; zshrc]) = false.
Proof.
  intros fs homeDir H. unfold updateUnixPath.
  destruct (existsb _ configFiles); [exact H|].
  unfold configFiles. fold zshrc. rewrite appendFirst_passes_over by exact H.
  assert (content (snd (appendFirst fs homeDir
                          [lit ".bash_profile"; lit ".bashrc"; lit ".profile"]))
                  (Join [homeDir; zshrc])
          = content fs (Join [homeDir; zshrc])) as C.
  { apply appendFirst_content_other. intros g Hg E.
    assert (g = zshrc) as ->
      by (apply (@candidate_paths_differ homeDir); simpl; simpl in Hg; tauto).
    destruct Hg as [Hg|[Hg|[Hg|[]]]]; discriminate Hg. }
  unfold fileExists in *. rewrite C.
  destruct (content fs (Join [homeDir; zshrc])); [discriminate|].
  rewrite appendFirst_stat_fails. exact H.
Qed.

Lemma missing_zshrc_is_never_created_witness :
  let fs := Samples.shell_with [(lit "/home/user/.bashrc", lit "alias ll='ls -l'")] true in
  fileExists fs (Join [Samples.home; zshrc]) = false /\
  fileExists (snd (updateUnixPath fs Samples.home)) (Join [Samples.home; zshrc]) = false.
Proof.
  intros fs.
  assert (fileExists fs (Join [Samples.home; zshrc]) = false) as H
    by (vm_compute; reflexivity).
  split; [exact H|].
  exact (@missing_zshrc_is_never_created fs Samples.home H).
Defined.

Lemma fileExists_write fs filePath text other :
  fileExists fs other = true -> fileExists (write fs filePath text) other = true.
Proof.
  unfold fileExists, write. cbn [content stat_fails].
  destruct (eqs other filePath); [reflexivity|auto].
Qed.

(** The second loop succeeds as soon as one candidate it does not pass
    over takes the append. *)
Lemma appendFirst_succeeds homeDir configFile candidates : forall fs,
  In configFile candidates ->
  append_answers fs (Join [homeDir; configFile]) = AppendOk ->
  (configFile = zshrc -> fileExists fs (Join [homeDir; configFile]) = true) ->
  fst (appendFirst fs homeDir candidates) = inr tt.
Proof.
  induction candidates as [|f rest IH]; intros fs Hin A Z; [contradiction|].
  cbn [appendFirst].
  destruct (eqs f (lit ".zshrc") && negb (fileExists fs (Join [homeDir; f]))) eqn:S.
  - apply andb_prop in S as [S1 S2]. apply eqs_eq in S1. apply negb_true_iff in S2.
    destruct Hin as [->|Hin]; [|now apply IH].
    rewrite (Z S1) in S2. discriminate.
  - unfold appendToFile.
    destruct (append_answers fs (Join [homeDir; f])) eqn:Af; [| |reflexivity].
    + destruct Hin as [->|Hin]; [congruence|now apply IH].
    + destruct Hin as [->|Hin]; [congruence|].
      apply IH; [exact Hin|exact A|].
      intros E. apply fileExists_write. auto.
Qed.

Lemma appendFirst_error homeDir candidates : forall fs err,
  fst (appendFirst fs homeDir candidates) = inl err -> err = ErrNoShellConfig.
Proof.
  induction candidates as [|f rest IH]; intros fs err H; cbn [appendFirst] in H.
  - now injection H.
  - destruct (eqs f (lit ".zshrc") && negb _); [now apply IH in H|].
    destruct (appendToFile fs (Join [homeDir; f]) pathExport) as [[|] fs'];
      [discriminate|now apply IH in H].
Qed.

(** X17.  When [updateUnixPath] succeeds and when it fails.  It succeeds
    whenever some candidate takes the append (open and write succeed) and
    is not a [.zshrc] that does not exist.  Its only error is the one
    after the second loop, and it comes only when no candidate is found
    to hold the export line and every candidate either is a missing
    [.zshrc] or does not take the append. *)
Theorem updater_fails_only_when_no_candidate_takes_the_line :
  forall (fs : shell_fs) (homeDir : t),
    (forall configFile,
        In configFile configFiles ->
        append_answers fs (Join [homeDir; configFile]) = AppendOk ->
        (configFile = zshrc -> fileExists fs (Join [homeDir; configFile]) = true) ->
        fst (updateUnixPath fs homeDir) = inr tt) /\
    (forall err,
        fst (updateUnixPath fs homeDir) = inl err ->
        err = ErrNoShellConfig /\
        forall configFile,
          In configFile configFiles ->
          pathAlreadyExists fs (Join [homeDir; configFile]) pathExport = false /\
          ((configFile = zshrc /\ fileExists fs (Join [homeDir; configFile]) = false) \/
           append_answers fs (Join [homeDir; configFile]) <> AppendOk)).
Proof.
  intros fs homeDir.
  assert (forall configFile,
             In configFile configFiles ->
             append_answers fs (Join [homeDir; configFile]) = AppendOk ->
             (configFile = zshrc -> fileExists fs (Join [homeDir; configFile]) = true) ->
             fst (updateUnixPath fs homeDir) = inr tt) as Ok.
  { intros f Hin A Z. unfold updateUnixPath.
    destruct (existsb _ configFiles); [reflexivity|].
    now apply appendFirst_succeeds with (configFile := f). }
  split; [exact Ok|].
  intros err H. split.
  - unfold updateUnixPath in H.
    destruct (existsb _ configFiles); [discriminate|].
    now apply appendFirst_error in H.
  - intros f Hin. split.
    + revert f Hin. apply no_candidate_detected.
      unfold updateUnixPath in H.
      destruct (existsb _ configFiles); [discriminate|reflexivity].
    + destruct (append_answers fs (Join [homeDir; f])) eqn:A;
        [right; discriminate|right; discriminate|].
      destruct (fileExists fs (Join [homeDir; f])) eqn:F.
      * rewrite (Ok f Hin A (fun _ => F)) in H. discriminate.
      * destruct (eqs f zshrc) eqn:Z.
        -- apply eqs_eq in Z. left. auto.
        -- assert (f = zshrc -> fileExists fs (Join [homeDir; f]) = true) as Z'
             by (intros ->; rewrite eqs_refl in Z; discriminate).
           rewrite (Ok f Hin A Z') in H. discriminate.
Qed.

Lemma updater_fails_only_when_no_candidate_takes_the_line_witness :
  let fs := Samples.shell_with [(lit "/home/user/.bashrc", lit "alias ll='ls -l'")] false in
  fst (updateUnixPath fs Samples.home) = inl ErrNoShellConfig /\
  append_answers fs (Join [Samples.home; lit ".bashrc"]) <> AppendOk.
Proof.
  intros fs.
  assert (fst (updateUnixPath fs Samples.home) = inl ErrNoShellConfig) as H
    by (vm_compute; reflexivity).
  split; [exact H|].
  destruct (proj2 (@updater_fails_only_when_no_candidate_takes_the_line fs Samples.home)
              ErrNoShellConfig H) as [_ Hall].
  destruct (Hall (lit ".bashrc")) as [_ [[E _]|A]].
  - simpl. tauto.
  - discriminate E.
  - exact A.
Defined.

(** ** More on the orchestrator *)

(** The second loop of [updateUnixPath] changes candidate files only. *)
Lemma updateUnixPath_changes_candidates_only fs homeDir path :
  content (snd (updateUnixPath fs homeDir)) path <> content fs path ->
  exists configFile, In configFile configFiles /\ path = Join [homeDir; configFile].
Proof.
  intros H. unfold updateUnixPath in H.
  destruct (existsb _ configFiles); [now elim H|].
  destruct (existsb (fun configFile => eqs (Join [homeDir; configFile]) path) configFiles)
    eqn:E.
  - apply existsb_exists in E as (f & Hin & E). apply eqs_eq in E. eauto.
  - elim H. apply appendFirst_content_other. intros f Hin Ef.
    assert (existsb (fun configFile => eqs (Join [homeDir; configFile]) path) configFiles
            = true) as T
      by (apply existsb_exists; exists f; split; [exact Hin|now apply eqs_eq]).
    congruence.
Qed.

Lemma pathStage_unix h homeDir :
  GOOS h <> lit "windows" ->
  snd (pathStage h homeDir) = snd (updateUnixPath (shell h) homeDir).
Proof.
  intros Hg. apply eqs_neq in Hg. unfold pathStage, updatePath. rewrite Hg. cbn [negb].
  destruct (updateUnixPath (shell h) homeDir) as [[e|u] fs]; reflexivity.
Qed.

(** X11.  On a host other than Windows, where paths follow the rules of
    a Unix-like system, everything [installOllama] creates or changes is
    the home directory or lies inside it, for every archive and whichever
    calls fail.  Every path it creates, writes, changes the mode of or
    removes (the temporary archive, the install directory and the
    installed binary, the scratch directory and everything extracted
    into it) is the home directory or inside it; and a shell
    configuration file that the PATH stage created or changed is one of
    the four candidates directly under the home directory. *)
Theorem installer_writes_only_under_home :
  forall (h : host) (url homeDir : t),
    GOOS h <> lit "windows" ->
    UserHomeDir h = Some homeDir ->
    Forall (confined homeDir) (events (installOllama h url)) /\
    (forall fs path,
        result (installOllama h url) = inr fs ->
        content fs path <> content (shell h) path ->
        within homeDir path /\
        exists configFile,
          In configFile configFiles /\ path = Join [homeDir; configFile]).
Proof.
  intros h url homeDir Hg Hh.
  split; [now apply installOllama_events_confined|].
  intros fs path R Hc.
  destruct (installOllama h url) as [[e|fs'] tr] eqn:I; [discriminate R|].
  cbn [result fst] in R. injection R as ->.
  apply installOllama_inr in I as (homeDir' & _ & _ & _ & Hh' & _ & _ & _ & Efs & _).
  assert (homeDir' = homeDir) as -> by congruence.
  rewrite pathStage_unix in Efs by exact Hg. subst fs.
  apply updateUnixPath_changes_candidates_only in Hc as (f & Hin & ->).
  split; [|eauto].
  destruct (@configFile_proper f Hin) as [Pf Nf].
  apply within_Join; [discriminate|constructor; [exact Pf|constructor]|].
  intros [H|[]]; congruence.
Qed.

Lemma installer_writes_only_under_home_witness :
  let h := Samples.linux_host (Responds 200 (lit "archive")) true in
  let url := getDownloadURL (GOOS h) (lit "v0.5.1") in
  GOOS h <> lit "windows" /\
  UserHomeDir h = Some Samples.home /\
  Forall (confined Samples.home) (snd (main h)) /\
  exists fs,
    result (installOllama h url) = inr fs /\
    content fs Samples.bash_profile <> content (shell h) Samples.bash_profile /\
    within Samples.home Samples.bash_profile.
Proof.
  intros h url.
  assert (GOOS h <> lit "windows") as Hg by discriminate.
  split; [exact Hg|]. split; [reflexivity|].
  destruct (@installer_writes_only_under_home h url Samples.home Hg eq_refl) as [E S].
  split; [exact E|].
  destruct (result (installOllama h url)) as [e|fs] eqn:R;
    [vm_compute in R; discriminate R|].
  exists fs. split; [reflexivity|].
  assert (content fs Samples.bash_profile <> content (shell h) Samples.bash_profile) as Hc.
  { pose proof R as R'. vm_compute in R'. injection R' as <-.
    vm_compute. discriminate. }
  split; [exact Hc|].
  exact (proj1 (S fs Samples.bash_profile eq_refl Hc)).
Defined.

(** X18.  [main] touches nothing before it knows the version and the
    home directory: whenever a run creates, writes or removes anything
    at all, the release API answered with status 200 and a body whose tag
    could be decoded, and [os.UserHomeDir] succeeded. *)
Theorem nothing_is_touched_before_version_and_home_are_known :
  forall h : host,
    snd (main h) <> [] ->
    exists body version homeDir,
      api h = Responds StatusOK body /\
      decode h body = Some version /\
      UserHomeDir h = Some homeDir.
Proof.
  intros h. unfold main, getLatestOllamaVersion.
  destruct (api h) as [| |status body]; [intros H; now elim H..|].
  destruct (Z.eqb status StatusOK) eqn:S; cbn [negb]; [|intros H; now elim H].
  apply Z.eqb_eq in S. subst status.
  destruct (decode h body) as [version|] eqn:D; [|intros H; now elim H].
  unfold installOllama.
  destruct (UserHomeDir h) as [homeDir|]; [|intros H; now elim H].
  intros _. exists body, version, homeDir. auto.
Qed.

Lemma nothing_is_touched_before_version_and_home_are_known_witness :
  let h := Samples.linux_host (Responds 404 []) true in
  snd (main h) <> [] /\
  exists body version homeDir,
    api h = Responds StatusOK body /\
    decode h body = Some version /\
    UserHomeDir h = Some homeDir.
Proof.
  intros h.
  assert (snd (main h) <> []) as H by (vm_compute; discriminate).
  split; [exact H|].
  exact (@nothing_is_touched_before_version_and_home_are_known h H).
Defined.

Lemma pathStage_environment h PATH' powershell_ok' homeDir :
  pathStage (with_environment h PATH' powershell_ok') homeDir = pathStage h homeDir.
Proof.
  unfold pathStage, updatePath. cbn [with_environment GOOS PATH powershell_ok shell].
  destruct (eqs (GOOS h) (lit "windows")); reflexivity.
Qed.

(** X19.  The installer never reaches [updateWindowsPath]: on Windows
    [installOllama] skips the PATH stage, and elsewhere [updatePath]
    goes to [updateUnixPath].  So neither the [PATH] environment variable
    nor the outcome of the PowerShell command has any influence on a run
    of [installOllama] or [main], on any platform. *)
Theorem path_environment_has_no_influence :
  forall (h : host) (PATH' : t) (powershell_ok' : bool) (url : t),
    installOllama (with_environment h PATH' powershell_ok') url = installOllama h url /\
    main (with_environment h PATH' powershell_ok') = main h.
Proof.
  intros h P ok url.
  assert (forall url, installOllama (with_environment h P ok) url = installOllama h url) as I.
  { intros u. unfold installOllama.
    cbn [with_environment GOOS UserHomeDir].
    destruct (UserHomeDir h) as [homeDir|]; [|reflexivity].
    rewrite pathStage_environment. reflexivity. }
  split; [apply I|].
  unfold main.
  change (getLatestOllamaVersion (with_environment h P ok))
    with (getLatestOllamaVersion h).
  change (GOOS (with_environment h P ok)) with (GOOS h).
  destruct (getLatestOllamaVersion h) as [e|version]; [reflexivity|].
  rewrite I. reflexivity.
Qed.

(** ** The two earlier variants of the installer *)

(** No event of the kind asked about is in an explicit trace. *)
Ltac absent :=
  let HIn := fresh "HIn" in
  intros ? HIn; repeat (destruct HIn as [HIn|HIn]; [discriminate HIn|]); exact HIn.

(** X20.  The two earlier variants of [installOllama], which shell out
    to [curl], [tar], [mv] and [chmod], have no deferred cleanup.  They
    succeed exactly when the five calls they check succeed, and a run
    that succeeds ends with the removal of the downloaded archive (and,
    in the first variant, of the extraction directory).  A run that fails
    never removes the downloaded archive.  In the second variant it
    removes nothing at all.  In the first variant the only removal it can
    contain is the clearing of the extraction directory that precedes the
    unpacking: it is followed at once by the re-creation of the directory
    and by no other removal, so what was unpacked is left behind too. *)
Theorem earlier_variants_clean_up_only_on_success :
  forall (h : Legacy.host) (url : t),
    let homeDir := Legacy.homeDirOf h in
    let tempFile := Join [homeDir; lit "ollama.tgz"] in
    let tempDir := Join [homeDir; lit "ollama-extract"] in
    let all_calls_ok :=
      Legacy.curl_ok h && Legacy.mkdir_ok h && Legacy.tar_ok h
      && Legacy.mv_ok h && Legacy.chmod_ok h in
    let run1 := Legacy.installOllama1 h url in
    let run2 := Legacy.installOllama2 h url in
    (fst run1 = inr tt <-> all_calls_ok = true) /\
    (fst run2 = inr tt <-> all_calls_ok = true) /\
    (all_calls_ok = true ->
     (exists before,
         snd run1 = before ++ [Legacy.Remove tempFile; Legacy.RemoveAll tempDir]) /\
     (exists before, snd run2 = before ++ [Legacy.Remove (lit "/tmp/ollama.tgz")])) /\
    (all_calls_ok = false ->
     (forall path, ~ In (Legacy.Remove path) (snd run1)) /\
     (forall path, ~ In (Legacy.Remove path) (snd run2)) /\
     (forall path, ~ In (Legacy.RemoveAll path) (snd run2)) /\
     (forall path,
         In (Legacy.RemoveAll path) (snd run1) ->
         path = tempDir /\
         exists before after,
           snd run1
           = before ++ Legacy.RemoveAll tempDir :: Legacy.MkdirAll tempDir 493 :: after /\
           (forall other, ~ In (Legacy.RemoveAll other) before) /\
           (forall other, ~ In (Legacy.RemoveAll other) after))).
Proof.
  intros h url homeDir tempFile tempDir all_calls_ok run1 run2.
  subst all_calls_ok run1 run2.
  unfold Legacy.installOllama1, Legacy.installOllama2, Legacy.step, Legacy.quiet,
    Legacy.done.
  fold homeDir. fold tempFile. fold tempDir.
  destruct (Legacy.curl_ok h), (Legacy.mkdir_ok h), (Legacy.tar_ok h),
    (Legacy.mv_ok h), (Legacy.chmod_ok h); cbn [andb fst snd];
    (split; [split; intros H; (reflexivity || discriminate H)|]);
    (split; [split; intros H; (reflexivity || discriminate H)|]);
    (split; [intros H; try discriminate H|intros H; try discriminate H]).
  2-32: split; [absent|split; [absent|split; [absent|]]].
  2-32: intros path HIn;
    repeat (destruct HIn as [HIn|HIn]; [try discriminate HIn|]); try (elim HIn; fail).
  2-8: injection HIn as <-; split; [reflexivity|];
    eexists [_; _], _; split; [reflexivity|split; absent].
  split.
  - eexists [_; _; _; _; _; _; _]. reflexivity.
  - eexists [_; _; _; _; _]. reflexivity.
Qed.

Lemma earlier_variants_clean_up_only_on_success_witness :
  let h := {| Legacy.UserHomeDir := Some Samples.home;
              Legacy.curl_ok := true; Legacy.mkdir_ok := true;
              Legacy.tar_ok := false; Legacy.mv_ok := true;
              Legacy.chmod_ok := true |} in
  let run := Legacy.installOllama1 h (lit "url") in
  fst run = inl Legacy.ErrExtract /\
  In (Legacy.RemoveAll (lit "/home/user/ollama-extract")) (snd run) /\
  ~ In (Legacy.Remove (lit "/home/user/ollama.tgz")) (snd run) /\
  exists before after,
    snd run
    = before ++ Legacy.RemoveAll (lit "/home/user/ollama-extract")
             :: Legacy.MkdirAll (lit "/home/user/ollama-extract") 493 :: after /\
    (forall other, ~ In (Legacy.RemoveAll other) after).
Proof.
  intros h run. split; [reflexivity|].
  assert (In (Legacy.RemoveAll (lit "/home/user/ollama-extract")) (snd run)) as HIn
    by (right; right; left; reflexivity).
  split; [exact HIn|].
  destruct (proj2 (proj2 (proj2
              (@earlier_variants_clean_up_only_on_success h (lit "url")))) eq_refl)
    as (NoRemove & _ & _ & Cleared).
  split; [apply NoRemove|].
  destruct (Cleared _ HIn) as (_ & before & after & E & _ & Hafter).
  exists before, after. split; [exact E|exact Hafter].
Defined.
